(** * Radar de contratos: the report behind [app.py]

    The program reads five tables, aggregates evaluation scores per contract
    with [SQL_RESUMO], classifies and sorts the rows in [fetch_resumo], and
    lists single evaluations with [SQL_DETALHES].

    Modelling choices:
    - a table is a list of rows (a bag: duplicates and order are kept); no
      constraint is built into the store, and a statement that needs an [Id]
      to be a key of its table says so as a hypothesis;
    - the queries and the classification are written once, over a number
      type [num] with the operations the source uses ([Arit]); [Exato]
      instantiates it with the rationals ([Q]: no rounding), [Binary64] with
      IEEE 754 binary64, the [FLOAT] of the server and the [float] of Python;
      statements that rest on the laws of an ordered field are about
      [Exato], the others hold for every instance; a binary64 number has an
      exact value ([valor]), and its comparisons are those of the values;
    - the server compares strings under the collation of the database,
      which the source does not fix: it is a field of the store;
    - an exception is the absence of a result: [fetch_resumo] gives nothing
      when line 87 raises;
    - an SQL NULL, and the NaN pandas reads it as, is [None];
    - the order of the rows of a query without [ORDER BY] is the order the
      operators below produce; no statement depends on it;
    - a [pd.Timestamp] is its calendar date: the time of day is carried
      through [pd.date_range] and [interval_month] unchanged and dropped by
      [.date()];
    - the page is taken as it renders on load: a select box returns the
      option it preselects. *)

From Stdlib Require Import ZArith QArith Qpower Bool List Ascii String.
From Stdlib Require Import Lia Lqa Sorted Permutation.
From Stdlib Require PrimFloat FloatOps FloatAxioms SpecFloat Uint63.
Import ListNotations.

Open Scope Z_scope.

(** ** Calendar dates *)

Record date := mkdate { year : Z; month : Z; day : Z }.

Definition isleap (y : Z) : bool :=
  (y mod 4 =? 0) && (negb (y mod 100 =? 0) || (y mod 400 =? 0)).

(** [calendar.monthrange(year, month)[1]] *)
Definition monthrange (y m : Z) : Z :=
  if m =? 2 then (if isleap y then 29 else 28)
  else if (m =? 4) || (m =? 6) || (m =? 9) || (m =? 11) then 30
  else 31.

Definition valid_date (d : date) : Prop :=
  1 <= year d /\ 1 <= month d <= 12 /\ 1 <= day d <= monthrange (year d) (month d).

Definition date_leb (a b : date) : bool :=
  (year a <? year b)
  || ((year a =? year b)
      && ((month a <? month b) || ((month a =? month b) && (day a <=? day b)))).

(** [d.replace(day=n)] *)
Definition replace_day (d : date) (n : Z) : date :=
  {| year := year d; month := month d; day := n |}.

(** [d + relativedelta(months=n)], for [1 <= |n| <= 12] as dateutil asserts:
    the month is moved, the year carried, and the day clipped to the length
    of the month reached. *)
Definition add_relativedelta_months (d : date) (n : Z) : date :=
  let m := month d + n in
  let '(y, m) :=
    if 12 <? m then (year d + 1, m - 12)
    else if m <? 1 then (year d - 1, m + 12)
    else (year d, m) in
  {| year := y; month := m; day := Z.min (monthrange y m) (day d) |}.

(** [d - pd.Timedelta(days=1)]: the calendar day before [d]. *)
Definition sub_one_day (d : date) : date :=
  if 1 <? day d then {| year := year d; month := month d; day := day d - 1 |}
  else if 1 <? month d then
    {| year := year d; month := month d - 1;
       day := monthrange (year d) (month d - 1) |}
  else {| year := year d - 1; month := 12; day := 31 |}.

(** Proleptic Gregorian ordinal of a date ([date.toordinal]); used only to
    state that [sub_one_day] is one day back. *)
Definition days_before_year (y : Z) : Z :=
  (y - 1) * 365 + (y - 1) / 4 - (y - 1) / 100 + (y - 1) / 400.

Fixpoint days_before_month_aux (y : Z) (n : nat) : Z :=
  match n with
  | O => 0
  | S k => days_before_month_aux y k + monthrange y (Z.of_nat (S k))
  end.

Definition days_before_month (y m : Z) : Z :=
  days_before_month_aux y (Z.to_nat (m - 1)).

Definition toordinal (d : date) : Z :=
  days_before_year (year d) + days_before_month (year d) (month d) + day d.

(** [interval_month] of app.py. *)
Definition interval_month (month : date) : date * date :=
  let ini := replace_day month 1 in
  let fim := sub_one_day (add_relativedelta_months month 1) in
  (ini, fim).

Definition first_of_month (d : date) : date :=
  {| year := year d; month := month d; day := 1 |}.

Definition last_of_month (d : date) : date :=
  {| year := year d; month := month d; day := monthrange (year d) (month d) |}.

(** ** The store: five tables *)

Record Contrato := mkContrato
  { c_Id : Z; c_EmpresaId : Z; c_Objeto : string; c_IsAtivo : bool }.

Record Empresa := mkEmpresa { e_Id : Z; e_Nome : string }.

Record ProjetoEmpresaColaborador := mkPec
  { pec_ContratoId : Z; pec_ColaboradorId : Z; pec_Ativo : bool }.

Record Colaborador := mkColaborador { col_Id : Z; col_NomeCompleto : string }.

Record AvaliacaoColaborador := mkAvaliacao
  { ac_ColaboradorId : Z;
    ac_ContratoId : Z;
    ac_Periodo : date;
    ac_Tecnico : Z;
    ac_Comunicacao : Z;
    ac_Comprometimento : Z;
    ac_Descricao : option string }.

(** [colacao x y]: under the collation of the database, the string [x]
    sorts before [y] or is taken as equal to it. The source does not fix
    the collation; it belongs to the store. *)
Record Banco := mkBanco
  { tb_Contratos : list Contrato;
    tb_Empresas : list Empresa;
    tb_ProjetoEmpresaColaboradores : list ProjetoEmpresaColaborador;
    tb_Colaboradores : list Colaborador;
    tb_AvaliacaoColaboradores : list AvaliacaoColaborador;
    colacao : string -> string -> bool }.

(** ** Relational operators *)

Section Relational.
Context {A B K : Type}.

(** [l JOIN r ON on] *)
Definition JOIN (on : A -> B -> bool) (l : list A) (r : list B) : list (A * B) :=
  flat_map (fun a => map (pair a) (filter (on a) r)) l.

(** [l LEFT JOIN r ON on]: a left row without a match is kept, with NULLs. *)
Definition LEFT_JOIN (on : A -> B -> bool) (l : list A) (r : list B)
  : list (A * option B) :=
  flat_map (fun a =>
              match filter (on a) r with
              | [] => [(a, None)]
              | bs => map (fun b => (a, Some b)) bs
              end) l.

Variable K_dec : forall x y : K, {x = y} + {x <> y}.

Definition same_key (key : A -> K) (k : K) (a : A) : bool :=
  if K_dec (key a) k then true else false.

(** [GROUP BY key]: one group per distinct key, holding its rows. *)
Definition GROUP_BY (key : A -> K) (l : list A) : list (K * list A) :=
  map (fun k => (k, filter (same_key key k) l)) (nodup K_dec (map key l)).
End Relational.

(** [x BETWEEN lo AND hi] on dates *)
Definition BETWEEN (x lo hi : date) : bool := date_leb lo x && date_leb x hi.

(** The values of a nullable column that are not NULL. *)
Fixpoint non_null {A : Type} (l : list (option A)) : list A :=
  match l with
  | [] => []
  | Some v :: t => v :: non_null t
  | None :: t => non_null t
  end.

Definition SUM_int (l : list Z) : Z := fold_right Z.add 0 l.

(** [COUNT(DISTINCT x)] *)
Definition COUNT_DISTINCT (l : list Z) : Z := Z.of_nat (List.length (nodup Z.eq_dec l)).

(** ** Numbers *)

(** The operations on scores that the source uses. *)
Class Arit (num : Type) := mkArit
  { num_of_int : Z -> num;
    num_half : num;
    num_add : num -> num -> num;
    num_sub : num -> num -> num;
    num_div : num -> num -> num;
    num_ltb : num -> num -> bool;
    num_leb : num -> num -> bool }.

Definition Qltb (a b : Q) : bool :=
  match (a ?= b)%Q with Lt => true | _ => false end.

(** Exact arithmetic: [num_of_int] is [CAST(x AS FLOAT)] and the literals
    [3.0] and [0]; [num_half] is the literal [0.5]. *)
#[export] Instance Exato : Arit Q :=
  {| num_of_int := inject_Z;
     num_half := 0.5%Q;
     num_add := Qplus;
     num_sub := Qminus;
     num_div := Qdiv;
     num_ltb := Qltb;
     num_leb := Qle_bool |}.

(** An integer as a binary64 number (exact below 2^53 in absolute value). *)
Definition float_of_Z (z : Z) : PrimFloat.float :=
  if z <? 0 then PrimFloat.opp (PrimFloat.of_uint63 (Uint63.of_Z (- z)))
  else PrimFloat.of_uint63 (Uint63.of_Z z).

(** IEEE 754 binary64 with rounding to nearest even. *)
#[export] Instance Binary64 : Arit PrimFloat.float :=
  {| num_of_int := float_of_Z;
     num_half := PrimFloat.div (float_of_Z 1) (float_of_Z 2);
     num_add := PrimFloat.add;
     num_sub := PrimFloat.sub;
     num_div := PrimFloat.div;
     num_ltb := PrimFloat.ltb;
     num_leb := PrimFloat.leb |}.

(** [v] is a number, not NaN: what [pd.isna] tests on a float. *)
Definition numero (v : PrimFloat.float) : Prop := PrimFloat.eqb v v = true.

(** A decimal literal [n / 10^k], such as a threshold of the slider. *)
Definition decimal {num : Type} {ar : Arit num} (n : Z) (k : nat) : num :=
  num_div (num_of_int n) (num_of_int (10 ^ Z.of_nat k)).

(** The exact value of a binary64 number, [(-1)^s * m * 2^e]; nothing for
    an infinity and for NaN. *)
Definition SF2Q (f : SpecFloat.spec_float) : option Q :=
  match f with
  | SpecFloat.S754_zero _ => Some 0%Q
  | SpecFloat.S754_finite s m e =>
      Some (inject_Z (SpecFloat.cond_Zopp s (Zpos m)) * Qpower 2 e)%Q
  | _ => None
  end.

Definition valor (x : PrimFloat.float) : option Q := SF2Q (FloatOps.Prim2SF x).

(** The same value counted in units of [2^-1074], the smallest step of
    binary64. *)
Definition SF2Z (f : SpecFloat.spec_float) : Z :=
  match f with
  | SpecFloat.S754_finite s m e => SpecFloat.cond_Zopp s (Zpos m) * 2 ^ (e + 1074)
  | _ => 0
  end.

(** [limiar - 0.5] as [classifica] computes it in binary64. *)
Definition limite_critico (limiar : PrimFloat.float) : PrimFloat.float :=
  PrimFloat.sub limiar (@num_half PrimFloat.float Binary64).

(** A check on the decimal threshold [k/10]: the difference [k/10 - 0.5] is
    computed without rounding, or [k < 5] and both the difference and its
    computed value are negative. *)
Definition limiar_decimal_ok (k : Z) : bool :=
  match valor (decimal k 1), valor (limite_critico (decimal k 1)) with
  | Some vt, Some vc =>
      Qeq_bool vc (vt - 0.5)
      || ((k <? 5) && Qltb vc 0 && Qltb (vt - 0.5) 0)
  | _, _ => false
  end.

Section Agregados.
Context {num : Type} {ar : Arit num}.

(** The values of a column added up in row order. *)
Definition num_sum (l : list num) : num := fold_left num_add l (num_of_int 0).

Definition num_min (a b : num) : num := if num_leb a b then a else b.

(** [AVG]: NULLs are skipped; NULL when nothing is left; else sum over count. *)
Definition AVG (l : list (option num)) : option num :=
  match non_null l with
  | [] => None
  | vs => Some (num_div (num_sum vs) (num_of_int (Z.of_nat (List.length vs))))
  end.

(** [MIN]: NULLs are skipped; NULL when nothing is left. *)
Definition MIN (l : list (option num)) : option num :=
  match non_null l with
  | [] => None
  | v :: vs => Some (fold_left num_min vs v)
  end.
End Agregados.

(** ** SQL_RESUMO *)

Record NotasRow (num : Type) := mkNotas
  { n_ColaboradorId : Z; n_NotaMedia : option num }.
Arguments mkNotas {num}.
Arguments n_ColaboradorId {num}.
Arguments n_NotaMedia {num}.

Record ResumoRow (num : Type) := mkResumo
  { ContratoId : Z;
    Cliente : string;
    Projeto : string;
    Colaboradores : Z;
    PiorNota : option num;
    NotaMedia : option num;
    ColabsRuins : Z }.
Arguments mkResumo {num}.
Arguments ContratoId {num}.
Arguments Cliente {num}.
Arguments Projeto {num}.
Arguments Colaboradores {num}.
Arguments PiorNota {num}.
Arguments NotaMedia {num}.
Arguments ColabsRuins {num}.

Definition ResumoKey : Type := Z * string * string.

Definition ResumoKey_dec (x y : ResumoKey) : {x = y} + {x <> y}.
Proof. repeat decide equality. Defined.

(** The rows of [AvaliacaoColaboradores] with [Periodo BETWEEN @ini AND @fim]. *)
Definition avaliacoes_no_periodo (db : Banco) (ini fim : date)
  : list AvaliacaoColaborador :=
  filter (fun ac => BETWEEN (ac_Periodo ac) ini fim) (tb_AvaliacaoColaboradores db).

(** [Contratos c JOIN Empresas e ON e.Id = c.EmpresaId AND c.IsAtivo = 1] *)
Definition contratos_empresas (db : Banco) : list (Contrato * Empresa) :=
  JOIN (fun (c : Contrato) (e : Empresa) => (e_Id e =? c_EmpresaId c) && c_IsAtivo c)
       (tb_Contratos db) (tb_Empresas db).

(** [... JOIN ProjetoEmpresaColaboradores pec ON pec.ContratoId = c.Id AND pec.Ativo = 1] *)
Definition atribuicoes (db : Banco)
  : list (Contrato * Empresa * ProjetoEmpresaColaborador) :=
  JOIN (fun (x : Contrato * Empresa) (pec : ProjetoEmpresaColaborador) =>
          (pec_ContratoId pec =? c_Id (fst x)) && pec_Ativo pec)
       (contratos_empresas db) (tb_ProjetoEmpresaColaboradores db).

Section Resumo.
Context {num : Type} {ar : Arit num}.

(** [(CAST(Tecnico AS FLOAT)+CAST(Comunicacao AS FLOAT)+CAST(Comprometimento AS FLOAT))/3.0] *)
Definition nota (ac : AvaliacaoColaborador) : num :=
  num_div (num_add (num_add (num_of_int (ac_Tecnico ac))
                            (num_of_int (ac_Comunicacao ac)))
                   (num_of_int (ac_Comprometimento ac)))
          (num_of_int 3).

(** The CTE [notas]: one row per collaborator evaluated in the window. *)
Definition notas (db : Banco) (ini fim : date) : list (NotasRow num) :=
  map (fun g : Z * list AvaliacaoColaborador =>
         {| n_ColaboradorId := fst g;
            n_NotaMedia := AVG (map (fun ac => Some (nota ac)) (snd g)) |})
      (GROUP_BY Z.eq_dec ac_ColaboradorId (avaliacoes_no_periodo db ini fim)).

Definition Juncao : Type :=
  Contrato * Empresa * ProjetoEmpresaColaborador * option (NotasRow num).

Definition j_c (j : Juncao) : Contrato := fst (fst (fst j)).
Definition j_e (j : Juncao) : Empresa := snd (fst (fst j)).
Definition j_pec (j : Juncao) : ProjetoEmpresaColaborador := snd (fst j).

(** [n.NotaMedia] of a joined row: NULL when the LEFT JOIN found no [notas] row. *)
Definition j_NotaMedia (j : Juncao) : option num :=
  match snd j with
  | Some n => n_NotaMedia n
  | None => None
  end.

(** The FROM clause of [SQL_RESUMO]:
    [... LEFT JOIN notas n ON n.ColaboradorId = pec.ColaboradorId] *)
Definition resumo_from (db : Banco) (ini fim : date) : list Juncao :=
  LEFT_JOIN
    (fun (x : Contrato * Empresa * ProjetoEmpresaColaborador) (n : NotasRow num) =>
       n_ColaboradorId n =? pec_ColaboradorId (snd x))
    (atribuicoes db) (notas db ini fim).

(** [GROUP BY c.Id, e.Nome, c.Objeto]; the two names are compared as
    strings: under a collation two of these groups could only fall together
    when they have the same [c.Id] and names the collation takes as equal. *)
Definition resumo_key (j : Juncao) : ResumoKey :=
  (c_Id (j_c j), e_Nome (j_e j), c_Objeto (j_c j)).

(** [CASE WHEN n.NotaMedia IS NOT NULL AND n.NotaMedia < :limiar THEN 1 ELSE 0 END] *)
Definition ruim (limiar : num) (v : option num) : Z :=
  match v with
  | Some x => if num_ltb x limiar then 1 else 0
  | None => 0
  end.

(** The SELECT list of [SQL_RESUMO], over one group. *)
Definition resumo_select (limiar : num) (g : ResumoKey * list Juncao) : ResumoRow num :=
  let '(id, nome, objeto) := fst g in
  {| ContratoId := id;
     Cliente := nome;
     Projeto := objeto;
     Colaboradores := COUNT_DISTINCT (map (fun j => pec_ColaboradorId (j_pec j)) (snd g));
     PiorNota := MIN (map j_NotaMedia (snd g));
     NotaMedia := AVG (map j_NotaMedia (snd g));
     ColabsRuins := SUM_int (map (fun j => ruim limiar (j_NotaMedia j)) (snd g)) |}.

Definition SQL_RESUMO (db : Banco) (d_ini d_fim : date) (limiar : num)
  : list (ResumoRow num) :=
  map (resumo_select limiar)
      (GROUP_BY ResumoKey_dec resumo_key (resumo_from db d_ini d_fim)).
End Resumo.

(** ** Stable sorting, for [ORDER BY] and [DataFrame.sort_values] *)

Section Ordenacao.
Context {A : Type} (leb : A -> A -> bool).

Fixpoint insere (x : A) (l : list A) : list A :=
  match l with
  | [] => [x]
  | y :: t => if leb x y then x :: l else y :: insere x t
  end.

(** A row goes before the rows it is tied with and that came after it, so
    ties keep their input order. *)
Definition ordena (l : list A) : list A := fold_right insere [] l.
End Ordenacao.

(** ** SQL_DETALHES *)

Definition JuncaoDetalhe : Type :=
  ProjetoEmpresaColaborador * AvaliacaoColaborador * Colaborador.

Definition d_pec (j : JuncaoDetalhe) : ProjetoEmpresaColaborador := fst (fst j).
Definition d_ac (j : JuncaoDetalhe) : AvaliacaoColaborador := snd (fst j).
Definition d_col (j : JuncaoDetalhe) : Colaborador := snd j.

(** The FROM and WHERE clauses of [SQL_DETALHES]. *)
Definition detalhes_from (db : Banco) (cid : Z) (d_ini d_fim : date)
  : list JuncaoDetalhe :=
  filter
    (fun j => (pec_ContratoId (d_pec j) =? cid)
              && (ac_ContratoId (d_ac j) =? cid)
              && pec_Ativo (d_pec j))
    (JOIN
       (fun (x : ProjetoEmpresaColaborador * AvaliacaoColaborador) (col : Colaborador) =>
          col_Id col =? ac_ColaboradorId (snd x))
       (JOIN
          (fun (pec : ProjetoEmpresaColaborador) (ac : AvaliacaoColaborador) =>
             (ac_ColaboradorId ac =? pec_ColaboradorId pec)
             && BETWEEN (ac_Periodo ac) d_ini d_fim)
          (tb_ProjetoEmpresaColaboradores db) (tb_AvaliacaoColaboradores db))
       (tb_Colaboradores db)).

(** [ORDER BY col.NomeCompleto, ac.Periodo DESC]: names are compared under
    the collation [le] of the database; the period decides between names
    the collation takes as equal. *)
Definition detalhes_order (le : string -> string -> bool) (a b : JuncaoDetalhe) : bool :=
  let na := col_NomeCompleto (d_col a) in
  let nb := col_NomeCompleto (d_col b) in
  (le na nb && negb (le nb na))
  || (le na nb && le nb na && date_leb (ac_Periodo (d_ac b)) (ac_Periodo (d_ac a))).

Record DetalheRow (num : Type) := mkDetalhe
  { NomeCompleto : string;
    Periodo : date;
    Nota : num;
    Tecnico : Z;
    Comunicacao : Z;
    Comprometimento : Z;
    Descricao : option string }.
Arguments mkDetalhe {num}.
Arguments NomeCompleto {num}.
Arguments Periodo {num}.
Arguments Nota {num}.
Arguments Tecnico {num}.
Arguments Comunicacao {num}.
Arguments Comprometimento {num}.
Arguments Descricao {num}.

Record RelatorioRow (num : Type) := mkRelatorio
  { linha :> ResumoRow num; Severidade : Z; Status : string }.
Arguments mkRelatorio {num}.
Arguments linha {num}.
Arguments Severidade {num}.
Arguments Status {num}.

Section Programa.
Context {num : Type} {ar : Arit num}.

Definition detalhes_select (j : JuncaoDetalhe) : DetalheRow num :=
  {| NomeCompleto := col_NomeCompleto (d_col j);
     Periodo := ac_Periodo (d_ac j);
     Nota := nota (d_ac j);
     Tecnico := ac_Tecnico (d_ac j);
     Comunicacao := ac_Comunicacao (d_ac j);
     Comprometimento := ac_Comprometimento (d_ac j);
     Descricao := ac_Descricao (d_ac j) |}.

(** The joined rows behind the result, in result order. *)
Definition detalhes_rows (db : Banco) (cid : Z) (d_ini d_fim : date)
  : list JuncaoDetalhe :=
  ordena (detalhes_order (colacao db)) (detalhes_from db cid d_ini d_fim).

Definition SQL_DETALHES (db : Banco) (cid : Z) (d_ini d_fim : date)
  : list (DetalheRow num) :=
  map detalhes_select (detalhes_rows db cid d_ini d_fim).

(** ** fetch_resumo and fetch_detalhes *)

(** [classifica] of [fetch_resumo]; [limiar] is the variable it closes over. *)
Definition classifica (limiar : num) (row : ResumoRow num) : Z * string :=
  match PiorNota row with
  | None => (3, "⏸️ Sem avaliação"%string)
  | Some p =>
      if num_ltb p (num_sub limiar num_half) then (0, "🔥 Crítico"%string)
      else if num_ltb p limiar then (1, "⚠️ Alerta"%string)
      else (2, "OK"%string)
  end.

(** A row with the two columns [classifica] gives it. *)
Definition classifica_linha (limiar : num) (row : ResumoRow num) : RelatorioRow num :=
  {| linha := row;
     Severidade := fst (classifica limiar row);
     Status := snd (classifica limiar row) |}.

(** [df[["Severidade", "Status"]] = df.apply(classifica, axis=1, result_type="expand")]:
    on a frame without rows [apply] gives back the frame, with its seven
    columns, and the assignment to two columns raises [ValueError]: nothing. *)
Definition apply_classifica (limiar : num) (df : list (ResumoRow num))
  : option (list (RelatorioRow num)) :=
  match df with
  | [] => None
  | _ :: _ => Some (map (classifica_linha limiar) df)
  end.

(** Ascending order of [PiorNota] with missing values last ([na_position="last"]). *)
Definition nota_leb (x y : option num) : bool :=
  match x, y with
  | Some p, Some q => num_leb p q
  | _, None => true
  | None, Some _ => false
  end.

Definition sort_key_leb (a b : RelatorioRow num) : bool :=
  (Severidade a <? Severidade b)
  || ((Severidade a =? Severidade b) && nota_leb (PiorNota a) (PiorNota b)).

(** [df.sort_values(["Severidade", "PiorNota"])] *)
Definition sort_values (df : list (RelatorioRow num)) : list (RelatorioRow num) :=
  ordena sort_key_leb df.

(** The frame [fetch_resumo] returns for the rows [df] of the query, when
    line 87 does not raise: the rows with their two new columns, sorted. *)
Definition relatorio (limiar : num) (df : list (ResumoRow num))
  : list (RelatorioRow num) :=
  sort_values (map (classifica_linha limiar) df).

(** [fetch_resumo]: nothing when line 87 raises, that is, when the query
    returns no row. *)
Definition fetch_resumo (db : Banco) (month : date) (limiar : num)
  : option (list (RelatorioRow num)) :=
  let '(d_ini, d_fim) := interval_month month in
  option_map sort_values (apply_classifica limiar (SQL_RESUMO db d_ini d_fim limiar)).

Definition fetch_detalhes (db : Banco) (cid : Z) (month : date)
  : list (DetalheRow num) :=
  let '(d_ini, d_fim) := interval_month month in
  SQL_DETALHES db cid d_ini d_fim.

End Programa.

(** ** The contract selection of the page *)

(** A Python dict as an association list in insertion order: setting a key
    that is present replaces its value where it stands. *)
Fixpoint dict_set (k : Z) (v : string) (d : list (Z * string)) : list (Z * string) :=
  match d with
  | [] => [(k, v)]
  | (k', v') :: t => if k' =? k then (k, v) :: t else (k', v') :: dict_set k v t
  end.

(** Truth value of [cid_default] and of [cid]: [None] and [0] are false. *)
Definition truthy (v : option Z) : bool :=
  match v with
  | Some z => negb (z =? 0)
  | None => false
  end.

(** [st.selectbox(options=..., index=...)] before any user action: the option
    at [index], nothing when [index] is [None]. *)
Definition selectbox {A : Type} (options : list A) (index : option nat) : option A :=
  match index with
  | Some i => nth_error options i
  | None => None
  end.

Section Pagina.
Context {num : Type} {ar : Arit num}.

(** [{row.ContratoId: f"{row.Cliente} – {row.Projeto}" for row in df.itertuples()}] *)
Definition cid_to_nome (df : list (RelatorioRow num)) : list (Z * string) :=
  fold_left (fun d (row : RelatorioRow num) =>
               dict_set (ContratoId row) (Cliente row ++ " – " ++ Projeto row)%string d)
            df [].

(** [df.iloc[0]["ContratoId"] if not df.empty else None] *)
Definition cid_default (df : list (RelatorioRow num)) : option Z :=
  match df with
  | [] => None
  | row :: _ => Some (ContratoId row)
  end.

(** The preselected contract: [index=0 if cid_default else None]. *)
Definition cid (df : list (RelatorioRow num)) : option Z :=
  selectbox (map fst (cid_to_nome df))
            (if truthy (cid_default df) then Some 0%nat else None).

(** [if cid: detal = fetch_detalhes(cid, mes)] *)
Definition detal (db : Banco) (mes : date) (df : list (RelatorioRow num))
  : option (list (DetalheRow num)) :=
  match cid df with
  | Some c => if truthy (Some c) then Some (fetch_detalhes db c mes) else None
  | None => None
  end.
End Pagina.

(** ** Vocabulary of the statements *)

(** [x <= y] on nullable scores, a missing score above every number. *)
Definition nota_le (x y : option Q) : Prop :=
  match x, y with
  | Some p, Some q => (p <= q)%Q
  | _, None => True
  | None, Some _ => False
  end.

(** A row as [classifica] sees it: only [PiorNota] is read. *)
Definition linha_com_nota {num : Type} (v : option num) : ResumoRow num :=
  {| ContratoId := 1; Cliente := "Cliente"; Projeto := "Projeto"; Colaboradores := 1;
     PiorNota := v; NotaMedia := v; ColabsRuins := 0 |}.

Definition df_exemplo : list (ResumoRow Q) :=
  [linha_com_nota (Some 3.2%Q); linha_com_nota None; linha_com_nota (Some 1.0%Q)].

Definition df_exemplo_binary64 : list (ResumoRow PrimFloat.float) :=
  [linha_com_nota (Some (decimal 32 1)); linha_com_nota None;
   linha_com_nota (Some (decimal 10 1))].

(** Equality of nullable scores, as numbers. *)
Definition nota_eq (x y : option Q) : Prop :=
  match x, y with
  | Some p, Some q => (p == q)%Q
  | None, None => True
  | _, _ => False
  end.

(** [ini <= d <= fim] *)
Definition no_periodo (d ini fim : date) : Prop :=
  date_leb ini d = true /\ date_leb d fim = true.

(** The sum of a list of rationals. *)
Definition Qsum (l : list Q) : Q := fold_right Qplus 0%Q l.

(** The average score of collaborator [x] over the window, from every
    evaluation of [x] in it; NULL when there is none. *)
Definition nota_media {num : Type} {ar : Arit num}
           (db : Banco) (ini fim : date) (x : Z) : option num :=
  AVG (map (fun ac => Some (nota ac))
           (filter (fun ac => ac_ColaboradorId ac =? x)
                   (avaliacoes_no_periodo db ini fim))).

(** The active assignments of contract [id]. *)
Definition ativos (db : Banco) (id : Z) : list ProjetoEmpresaColaborador :=
  filter (fun pec => (pec_ContratoId pec =? id) && pec_Ativo pec)
         (tb_ProjetoEmpresaColaboradores db).

(** Evaluation [ac] recorded against contract [f ac] instead. *)
Definition com_contrato (f : AvaliacaoColaborador -> Z) (ac : AvaliacaoColaborador)
  : AvaliacaoColaborador :=
  {| ac_ColaboradorId := ac_ColaboradorId ac;
     ac_ContratoId := f ac;
     ac_Periodo := ac_Periodo ac;
     ac_Tecnico := ac_Tecnico ac;
     ac_Comunicacao := ac_Comunicacao ac;
     ac_Comprometimento := ac_Comprometimento ac;
     ac_Descricao := ac_Descricao ac |}.

(** The store [db] with every evaluation recorded against the contract [f] gives. *)
Definition com_contratos (f : AvaliacaoColaborador -> Z) (db : Banco) : Banco :=
  {| tb_Contratos := tb_Contratos db;
     tb_Empresas := tb_Empresas db;
     tb_ProjetoEmpresaColaboradores := tb_ProjetoEmpresaColaboradores db;
     tb_Colaboradores := tb_Colaboradores db;
     tb_AvaliacaoColaboradores := map (com_contrato f) (tb_AvaliacaoColaboradores db);
     colacao := colacao db |}.

(** [db] without its evaluations. *)
Definition sem_avaliacoes (db : Banco) : Banco :=
  {| tb_Contratos := tb_Contratos db;
     tb_Empresas := tb_Empresas db;
     tb_ProjetoEmpresaColaboradores := tb_ProjetoEmpresaColaboradores db;
     tb_Colaboradores := tb_Colaboradores db;
     tb_AvaliacaoColaboradores := [];
     colacao := colacao db |}.

(** ** Sample stores *)

Definition fev_ini : date := mkdate 2024 2 1.
Definition fev_fim : date := mkdate 2024 2 29.

(** Ana works on two contracts of one client; her only evaluation of
    February 2024 is recorded against contract 2. *)
Definition db_exemplo : Banco :=
  {| tb_Contratos := [mkContrato 1 10 "Portal" true; mkContrato 2 10 "App" true];
     tb_Empresas := [mkEmpresa 10 "Acme"];
     tb_ProjetoEmpresaColaboradores := [mkPec 1 100 true; mkPec 2 100 true];
     tb_Colaboradores := [mkColaborador 100 "Ana"];
     tb_AvaliacaoColaboradores := [mkAvaliacao 100 2 (mkdate 2024 2 10) 2 2 2 None];
     colacao := String.leb |}.

(** Two collaborators on one contract, one evaluation each in February 2024. *)
Definition db_equipe : Banco :=
  {| tb_Contratos := [mkContrato 1 10 "Portal" true];
     tb_Empresas := [mkEmpresa 10 "Acme"];
     tb_ProjetoEmpresaColaboradores := [mkPec 1 100 true; mkPec 1 101 true];
     tb_Colaboradores := [mkColaborador 100 "Ana"; mkColaborador 101 "Bruno"];
     tb_AvaliacaoColaboradores :=
       [mkAvaliacao 100 1 (mkdate 2024 2 10) 2 2 2 None;
        mkAvaliacao 101 1 (mkdate 2024 2 12) 4 4 4 None];
     colacao := String.leb |}.

(** The premises of the null-propagation property. *)
Definition tem_colaborador_ativo (db : Banco) (c : Contrato) : Prop :=
  exists pec, In pec (tb_ProjetoEmpresaColaboradores db)
              /\ pec_ContratoId pec = c_Id c /\ pec_Ativo pec = true.

Definition sem_avaliacao_no_periodo (db : Banco) (ini fim : date) (c : Contrato) : Prop :=
  forall pec ac,
    In pec (tb_ProjetoEmpresaColaboradores db) ->
    pec_ContratoId pec = c_Id c -> pec_Ativo pec = true ->
    In ac (tb_AvaliacaoColaboradores db) ->
    ac_ColaboradorId ac = pec_ColaboradorId pec ->
    ~ no_periodo (ac_Periodo ac) ini fim.

Definition tem_empresa (db : Banco) (c : Contrato) : Prop :=
  exists e, In e (tb_Empresas db) /\ e_Id e = c_EmpresaId c.

Definition linha_sem_avaliacao {num : Type} (r : ResumoRow num) : Prop :=
  PiorNota r = None /\ NotaMedia r = None /\ ColabsRuins r = 0 /\ 1 <= Colaboradores r.

(** An active contract with an active assignment, whose client reference
    matches no row of [Empresas]. *)
Definition db_sem_empresa : Banco :=
  {| tb_Contratos := [mkContrato 1 99 "Portal" true];
     tb_Empresas := [mkEmpresa 10 "Acme"];
     tb_ProjetoEmpresaColaboradores := [mkPec 1 100 true];
     tb_Colaboradores := [mkColaborador 100 "Ana"];
     tb_AvaliacaoColaboradores := [];
     colacao := String.leb |}.

(** An active contract of an existing client, one collaborator, no evaluation. *)
Definition db_sem_notas : Banco :=
  {| tb_Contratos := [mkContrato 1 10 "Portal" true];
     tb_Empresas := [mkEmpresa 10 "Acme"];
     tb_ProjetoEmpresaColaboradores := [mkPec 1 100 true];
     tb_Colaboradores := [mkColaborador 100 "Ana"];
     tb_AvaliacaoColaboradores := [mkAvaliacao 100 1 (mkdate 2024 1 20) 2 2 2 None];
     colacao := String.leb |}.

(** The collaborators actively assigned to contract [id], one entry per
    assignment row. *)
Definition colaboradores_ativos (db : Banco) (id : Z) : list Z :=
  map pec_ColaboradorId (ativos db id).

(** The number of collaborators actively assigned to contract [id] whose
    average over the window is present and below [limiar]: each collaborator
    counted once. *)
Definition colabs_abaixo_do_limiar {num : Type} {ar : Arit num}
           (db : Banco) (ini fim : date) (limiar : num) (id : Z) : Z :=
  Z.of_nat (List.length
              (filter (fun x => ruim limiar (nota_media db ini fim x) =? 1)
                      (nodup Z.eq_dec (colaboradores_ativos db id)))).

(** The contract id and the client id are keys of their tables, for [c]. *)
Definition contrato_unico (db : Banco) (c : Contrato) : Prop :=
  filter (fun c' => c_Id c' =? c_Id c) (tb_Contratos db) = [c].

Definition empresa_unica (db : Banco) (c : Contrato) (e : Empresa) : Prop :=
  filter (fun e' => e_Id e' =? c_EmpresaId c) (tb_Empresas db) = [e].

(** The row of contract [c] of client [e], from its active assignments. *)
Definition resumo_do_contrato {num : Type} {ar : Arit num}
           (db : Banco) (ini fim : date) (limiar : num)
           (c : Contrato) (e : Empresa) : ResumoRow num :=
  let xs := colaboradores_ativos db (c_Id c) in
  {| ContratoId := c_Id c;
     Cliente := e_Nome e;
     Projeto := c_Objeto c;
     Colaboradores := COUNT_DISTINCT xs;
     PiorNota := MIN (map (nota_media db ini fim) xs);
     NotaMedia := AVG (map (nota_media db ini fim) xs);
     ColabsRuins := SUM_int (map (fun x => ruim limiar (nota_media db ini fim x)) xs) |}.

(** Ana is assigned twice to contract 1, Bruno once; one evaluation each in
    February 2024. *)
Definition db_duplicado : Banco :=
  {| tb_Contratos := [mkContrato 1 10 "Portal" true];
     tb_Empresas := [mkEmpresa 10 "Acme"];
     tb_ProjetoEmpresaColaboradores :=
       [mkPec 1 100 true; mkPec 1 101 true; mkPec 1 100 true];
     tb_Colaboradores := [mkColaborador 100 "Ana"; mkColaborador 101 "Bruno"];
     tb_AvaliacaoColaboradores :=
       [mkAvaliacao 100 1 (mkdate 2024 2 10) 2 2 2 None;
        mkAvaliacao 101 1 (mkdate 2024 2 12) 4 4 4 None];
     colacao := String.leb |}.

(** The grouping key of [SQL_RESUMO], read off a contract and its client. *)
Definition chave (x : Contrato * Empresa) : ResumoKey :=
  (c_Id (fst x), e_Nome (snd x), c_Objeto (fst x)).

(** A report whose first row is the contract of id 0. *)
Definition df_zero : list (RelatorioRow Q) :=
  relatorio 3.0%Q
    [mkResumo 0 "Acme" "Portal" 1 (Some 2%Q) (Some 2%Q) 1;
     mkResumo 7 "Acme" "App" 1 (Some 4%Q) (Some 4%Q) 0].

(** Seven collaborators on one contract; each has one evaluation in February
    2024, with sub-scores 3, 3 and 4. *)
Definition db_sete : Banco :=
  {| tb_Contratos := [mkContrato 1 10 "Portal" true];
     tb_Empresas := [mkEmpresa 10 "Acme"];
     tb_ProjetoEmpresaColaboradores :=
       map (fun x => mkPec 1 x true) [101; 102; 103; 104; 105; 106; 107];
     tb_Colaboradores := [];
     tb_AvaliacaoColaboradores :=
       map (fun x => mkAvaliacao x 1 (mkdate 2024 2 10) 3 3 4 None)
           [101; 102; 103; 104; 105; 106; 107];
     colacao := String.leb |}.

(** ** The month selector of the page *)

(** The offset [MonthBegin] ([freq="MS"]): a date is on it on the first day
    of a month; [MS_rollback] moves a date back onto it; [MS_add] and
    [MS_sub] move a date on it by one month. *)
Definition MS_is_on_offset (d : date) : bool := day d =? 1.

Definition MS_rollback (d : date) : date :=
  if MS_is_on_offset d then d else replace_day d 1.

Definition MS_add (d : date) : date :=
  if month d =? 12 then mkdate (year d + 1) 1 1 else mkdate (year d) (month d + 1) 1.

Definition MS_sub (d : date) : date :=
  if month d =? 1 then mkdate (year d - 1) 12 1 else mkdate (year d) (month d - 1) 1.

Fixpoint generate_range (cur : date) (periods : nat) : list date :=
  match periods with
  | O => []
  | S n => cur :: generate_range (MS_add cur) n
  end.

(** [pd.date_range(end=end_, periods=periods, freq="MS")]: the end is rolled
    back onto the offset, the start is [periods - 1] offsets before it. *)
Definition date_range_MS (end_ : date) (periods : nat) : list date :=
  generate_range (Nat.iter (periods - 1) MS_sub (MS_rollback end_)) periods.

(** [meses = pd.date_range(end=pd.Timestamp.today(), periods=24, freq="MS")[::-1]] *)
Definition meses (today : date) : list date := rev (date_range_MS today 24).

(** A decimal digit as a character. *)
Definition digit (n : Z) : ascii := ascii_of_nat (48 + Z.to_nat (n mod 10)).

(** [m.strftime("%Y-%m")], for a year of four digits. *)
Definition strftime_Ym (d : date) : string :=
  String (digit (year d / 1000))
    (String (digit (year d / 100))
       (String (digit (year d / 10))
          (String (digit (year d))
             (String "-"
                (String (digit (month d / 10))
                   (String (digit (month d)) EmptyString)))))).

(** [mes_str = [m.strftime("%Y-%m") for m in meses]] *)
Definition mes_str (today : date) : list string := map strftime_Ym (meses today).

(** [l.index(x)]: the first position of [x]; nothing stands for [ValueError]. *)
Fixpoint list_index (x : string) (l : list string) : option nat :=
  match l with
  | [] => None
  | y :: t => if String.eqb y x then Some O else option_map S (list_index x t)
  end.

(** [mes = meses[mes_str.index(idx)]], for the option [idx] the select box returns. *)
Definition mes (today : date) (idx : string) : option date :=
  match list_index idx (mes_str today) with
  | Some i => nth_error (meses today) i
  | None => None
  end.

(** The first day of the month [i] months before the month of [d]. *)
Definition months_before (d : date) (i : Z) : date :=
  let n := 12 * year d + (month d - 1) - i in
  mkdate (n / 12) (n mod 12 + 1) 1.

(** [d[k]] on a dict; nothing stands for [KeyError]. *)
Fixpoint dict_get (k : Z) (d : list (Z * string)) : option string :=
  match d with
  | [] => None
  | (k', v) :: t => if k' =? k then Some v else dict_get k t
  end.

(** [f"{row.Cliente} – {row.Projeto}"] *)
Definition rotulo {num : Type} (row : RelatorioRow num) : string :=
  (Cliente row ++ " – " ++ Projeto row)%string.

(** The label of the last row of [df] whose contract is [k]. *)
Definition ultimo_rotulo {num : Type} (k : Z) (df : list (RelatorioRow num)) : option string :=
  option_map rotulo (find (fun row : RelatorioRow num => ContratoId row =? k) (rev df)).

(** A day of March 2024. *)
Definition hoje_exemplo : date := mkdate 2024 3 15.

(** [db] cut down to what [SQL_RESUMO] reads for the window: the active
    contracts, the clients, the active assignments and the evaluations of
    the window; no row of [Colaboradores]. *)
Definition recorte (db : Banco) (ini fim : date) : Banco :=
  {| tb_Contratos := filter c_IsAtivo (tb_Contratos db);
     tb_Empresas := tb_Empresas db;
     tb_ProjetoEmpresaColaboradores := filter pec_Ativo (tb_ProjetoEmpresaColaboradores db);
     tb_Colaboradores := [];
     tb_AvaliacaoColaboradores := avaliacoes_no_periodo db ini fim;
     colacao := colacao db |}.

(** A report of two contracts, the more severe first. *)
Definition df_dois : list (RelatorioRow Q) :=
  relatorio 3.0%Q
    [mkResumo 7 "Acme" "App" 1 (Some 4%Q) (Some 4%Q) 0;
     mkResumo 3 "Acme" "Portal" 1 (Some 2%Q) (Some 2%Q) 1].

(** The evaluations of collaborator [x] dated in the window, whatever
    contract they are recorded against. *)
Definition avaliacoes_do_colaborador (db : Banco) (ini fim : date) (x : Z)
  : list AvaliacaoColaborador :=
  filter (fun ac => (ac_ColaboradorId ac =? x)
                    && date_leb ini (ac_Periodo ac) && date_leb (ac_Periodo ac) fim)
         (tb_AvaliacaoColaboradores db).

(** The score of one evaluation, the mean of its three marks, and the mean
    of a list of scores, as exact numbers. *)
Definition nota_exata (ac : AvaliacaoColaborador) : Q :=
  ((inject_Z (ac_Tecnico ac) + inject_Z (ac_Comunicacao ac)
    + inject_Z (ac_Comprometimento ac)) / 3)%Q.

Definition media (l : list Q) : Q := (Qsum l / inject_Z (Z.of_nat (List.length l)))%Q.

(** The score of collaborator [x] for the window: the mean of the scores of
    all those evaluations; none without an evaluation. *)
Definition nota_do_colaborador (db : Banco) (ini fim : date) (x : Z) : option Q :=
  match avaliacoes_do_colaborador db ini fim x with
  | [] => None
  | evs => Some (media (map nota_exata evs))
  end.

(** Ana works on contract 1; in February 2024 she has one evaluation
    recorded against contract 1 and one against contract 2, and in March
    one against contract 1. *)
Definition db_varias : Banco :=
  {| tb_Contratos := [mkContrato 1 10 "Portal" true];
     tb_Empresas := [mkEmpresa 10 "Acme"];
     tb_ProjetoEmpresaColaboradores := [mkPec 1 100 true];
     tb_Colaboradores := [mkColaborador 100 "Ana"];
     tb_AvaliacaoColaboradores :=
       [mkAvaliacao 100 1 (mkdate 2024 2 5) 2 2 2 None;
        mkAvaliacao 100 2 (mkdate 2024 2 20) 4 4 4 None;
        mkAvaliacao 100 1 (mkdate 2024 3 5) 5 5 5 None];
     colacao := String.leb |}.

(** The collation of [db] orders every two strings one way or the other. *)
Definition colacao_total (db : Banco) : Prop :=
  forall x y, colacao db x y = false -> colacao db y x = true.

(** [x] sorts before [y] under the collation of [db]; [x] and [y] are equal
    under it. *)
Definition nome_antes (db : Banco) (x y : string) : Prop :=
  colacao db x y = true /\ colacao db y x = false.

Definition nome_igual (db : Banco) (x y : string) : Prop :=
  colacao db x y = true /\ colacao db y x = true.

(** A collation that ignores the case of the letters A to Z. *)
Definition minuscula (c : ascii) : ascii :=
  let n := nat_of_ascii c in
  if ((65 <=? n) && (n <=? 90))%nat then ascii_of_nat (n + 32) else c.

Fixpoint minusculas (s : string) : string :=
  match s with
  | EmptyString => EmptyString
  | String c t => String (minuscula c) (minusculas t)
  end.

Definition sem_caixa (x y : string) : bool := String.leb (minusculas x) (minusculas y).

(** Two collaborators on one contract, in a database that ignores case. *)
Definition db_nomes : Banco :=
  {| tb_Contratos := [mkContrato 1 10 "Portal" true];
     tb_Empresas := [mkEmpresa 10 "Acme"];
     tb_ProjetoEmpresaColaboradores := [mkPec 1 100 true; mkPec 1 101 true];
     tb_Colaboradores := [mkColaborador 100 "Bruno"; mkColaborador 101 "ana"];
     tb_AvaliacaoColaboradores :=
       [mkAvaliacao 100 1 (mkdate 2024 2 10) 2 2 2 None;
        mkAvaliacao 101 1 (mkdate 2024 2 12) 4 4 4 None];
     colacao := sem_caixa |}.

(** * Properties *)

(** ** The month window *)

Lemma monthrange_bounds y m : 28 <= monthrange y m <= 31.
Proof.
  unfold monthrange.
  destruct (m =? 2); [destruct (isleap y); lia|].
  destruct ((m =? 4) || (m =? 6) || (m =? 9) || (m =? 11)); lia.
Qed.

(** A year ends 365 days after it starts, 366 in a leap year. *)
Lemma days_before_year_succ y :
  days_before_year (y + 1) = days_before_year y + (if isleap y then 366 else 365).
Proof.
  unfold days_before_year, isleap.
  replace (y + 1 - 1) with y by lia.
  destruct (Z.eqb_spec (y mod 4) 0), (Z.eqb_spec (y mod 100) 0),
    (Z.eqb_spec (y mod 400) 0); cbn [andb orb negb];
    Z.to_euclidean_division_equations; lia.
Qed.

Lemma days_before_month_succ y m :
  1 <= m <= 11 ->
  days_before_month y (m + 1) = days_before_month y m + monthrange y m.
Proof.
  intros Hm. unfold days_before_month.
  replace (Z.to_nat (m + 1 - 1)) with (S (Z.to_nat (m - 1))) by lia.
  cbn [days_before_month_aux]. f_equal. f_equal. lia.
Qed.

Lemma days_in_year y :
  days_before_month y 12 + 31 = if isleap y then 366 else 365.
Proof.
  change (days_before_month y 12) with (days_before_month_aux y 11).
  cbn [days_before_month_aux]. unfold monthrange.
  generalize (isleap y) as b; intros b. cbn. destruct b; lia.
Qed.

(** X5: [sub_one_day], the model of [- pd.Timedelta(days=1)] on dates, is
    the day before: one less in the count of days. *)
Lemma sub_one_day_toordinal d :
  valid_date d -> toordinal (sub_one_day d) = toordinal d - 1.
Proof.
  intros (_ & Hm & Hd). unfold sub_one_day, toordinal.
  destruct (Z.ltb_spec 1 (day d)); cbn [year month day]; [lia|].
  destruct (Z.ltb_spec 1 (month d)); cbn [year month day].
  - pose proof (days_before_month_succ (year d) (month d - 1)) as E.
    replace (month d - 1 + 1) with (month d) in E by lia. lia.
  - replace (month d) with 1 by lia.
    pose proof (days_before_year_succ (year d - 1)) as E.
    replace (year d - 1 + 1) with (year d) in E by lia.
    pose proof (days_in_year (year d - 1)).
    change (days_before_month (year d) 1) with 0. lia.
Qed.

Lemma sub_one_day_valid d :
  valid_date d -> 2 <= year d -> valid_date (sub_one_day d).
Proof.
  intros (Hy & Hm & Hd) Hy2. unfold sub_one_day, valid_date.
  destruct (Z.ltb_spec 1 (day d)); cbn [year month day]; [lia|].
  destruct (Z.ltb_spec 1 (month d)); cbn [year month day].
  - pose proof (monthrange_bounds (year d) (month d - 1)). lia.
  - cbn. lia.
Qed.

(** X1: for the first day of a month, the window of [interval_month] is the
    whole month, from its first to its last day, leap years included. *)
Lemma interval_month_first_day d :
  1 <= month d <= 12 -> day d = 1 ->
  interval_month d = (first_of_month d, last_of_month d).
Proof.
  intros Hm Hd. unfold interval_month, replace_day, first_of_month, last_of_month.
  f_equal. unfold add_relativedelta_months, sub_one_day.
  destruct (Z.ltb_spec 12 (month d + 1)).
  - cbn [year month day]. rewrite Hd.
    pose proof (monthrange_bounds (year d + 1) (month d + 1 - 12)).
    rewrite Z.min_r by lia.
    assert (month d = 12) as -> by lia. cbn. f_equal. lia.
  - destruct (Z.ltb_spec (month d + 1) 1); [lia|].
    cbn [year month day]. rewrite Hd.
    pose proof (monthrange_bounds (year d) (month d + 1)).
    rewrite Z.min_r by lia. cbn [Z.ltb Z.compare].
    destruct (Z.ltb_spec 1 (month d + 1)); [|lia].
    change (1 <? 1) with false. cbv iota.
    replace (month d + 1 - 1) with (month d) by lia. reflexivity.
Qed.

(** On any later day, the end of the window falls in the following month. *)
Lemma interval_month_later_day d :
  valid_date d -> 1 < day d ->
  snd (interval_month d) =
    {| year := (if month d =? 12 then year d + 1 else year d);
       month := (if month d =? 12 then 1 else month d + 1);
       day := Z.min (monthrange (if month d =? 12 then year d + 1 else year d)
                                (if month d =? 12 then 1 else month d + 1))
                    (day d) - 1 |}.
Proof.
  intros (Hy & Hm & Hd) H1. unfold interval_month, add_relativedelta_months. cbn [snd].
  destruct (Z.eqb_spec (month d) 12) as [E|E].
  - rewrite E. cbn -[Z.min monthrange]. unfold sub_one_day. cbn [year month day].
    pose proof (monthrange_bounds (year d + 1) 1).
    destruct (Z.ltb_spec 1 (Z.min (monthrange (year d + 1) 1) (day d))); [reflexivity|lia].
  - destruct (Z.ltb_spec 12 (month d + 1)); [lia|].
    destruct (Z.ltb_spec (month d + 1) 1); [lia|].
    unfold sub_one_day. cbn [year month day].
    pose proof (monthrange_bounds (year d) (month d + 1)).
    destruct (Z.ltb_spec 1 (Z.min (monthrange (year d) (month d + 1)) (day d)));
      [reflexivity|lia].
Qed.

Lemma sub_one_day_toordinal_witness :
  toordinal (sub_one_day (mkdate 2024 3 1)) = toordinal (mkdate 2024 3 1) - 1
  /\ sub_one_day (mkdate 2024 3 1) = mkdate 2024 2 29.
Proof.
  split; [|reflexivity]. apply sub_one_day_toordinal.
  repeat split; discriminate.
Defined.

Lemma interval_month_first_day_witness :
  interval_month (mkdate 2023 12 1) = (mkdate 2023 12 1, mkdate 2023 12 31).
Proof.
  apply (interval_month_first_day (mkdate 2023 12 1)).
  - split; discriminate.
  - reflexivity.
Defined.

(** C1, at an input where it fails: for 15 February 2024 the window starts on
    1 February but ends on 14 March, not on 29 February; the end is the last
    day of the month only when the anchor is its first day. *)
Theorem interval_month_mid_month :
  valid_date (mkdate 2024 2 15)
  /\ interval_month (mkdate 2024 2 15) = (mkdate 2024 2 1, mkdate 2024 3 14)
  /\ interval_month (mkdate 2024 2 15)
     <> (first_of_month (mkdate 2024 2 15), last_of_month (mkdate 2024 2 15))
  /\ interval_month (mkdate 2024 2 1) = (mkdate 2024 2 1, mkdate 2024 2 29).
Proof.
  repeat split; try (vm_compute; congruence); try reflexivity.
Qed.

(** ** classifica *)

(** The operations of [Exato], unfolded to those of [Q]. *)
Ltac exato :=
  cbn [num_of_int num_half num_add num_sub num_div num_ltb num_leb Exato] in *.

Lemma Qltb_lt (a b : Q) : Qltb a b = true <-> (a < b)%Q.
Proof.
  unfold Qltb. rewrite Qlt_alt. destruct (a ?= b)%Q; split; congruence.
Qed.

Lemma Qltb_ge (a b : Q) : Qltb a b = false <-> ~ (a < b)%Q.
Proof.
  rewrite <- Qltb_lt. destruct (Qltb a b); split; congruence.
Qed.

(** *** Binary64 numbers compare as their exact values *)

Lemma digits2_pos_bounds (m : positive) :
  2 ^ (Zpos (SpecFloat.digits2_pos m) - 1) <= Zpos m < 2 ^ Zpos (SpecFloat.digits2_pos m).
Proof.
  induction m as [m IH|m IH|]; cbn [SpecFloat.digits2_pos].
  - rewrite Pos2Z.inj_succ. replace (Z.succ (Zpos (SpecFloat.digits2_pos m)) - 1)
      with (Z.succ (Zpos (SpecFloat.digits2_pos m) - 1)) by lia.
    rewrite !Z.pow_succ_r by lia. lia.
  - rewrite Pos2Z.inj_succ. replace (Z.succ (Zpos (SpecFloat.digits2_pos m)) - 1)
      with (Z.succ (Zpos (SpecFloat.digits2_pos m) - 1)) by lia.
    rewrite !Z.pow_succ_r by lia. lia.
  - cbn. lia.
Qed.

Lemma valid_finite s m e :
  SpecFloat.valid_binary FloatOps.prec FloatOps.emax (SpecFloat.S754_finite s m e) = true ->
  -1074 <= e /\ Zpos m < 2 ^ 53 /\ (-1074 < e -> 2 ^ 52 <= Zpos m).
Proof.
  unfold SpecFloat.valid_binary, SpecFloat.bounded, SpecFloat.canonical_mantissa,
    SpecFloat.fexp, SpecFloat.emin.
  change FloatOps.prec with 53. change FloatOps.emax with 1024.
  intros H. apply andb_true_iff in H as (H & _). apply Z.eqb_eq in H.
  pose proof (digits2_pos_bounds m) as (Hlo & Hhi).
  set (d := Zpos (SpecFloat.digits2_pos m)) in *.
  assert (1 <= d) by (subst d; lia).
  assert (d <= 53) by lia.
  split; [lia|]. split.
  - apply Z.lt_le_trans with (1 := Hhi). apply Z.pow_le_mono_r; lia.
  - intros He. assert (d = 53) as -> by lia. exact Hlo.
Qed.

Lemma pow2_pos a : 0 <= a -> 0 < 2 ^ a.
Proof. intros. apply Z.pow_pos_nonneg; lia. Qed.

Lemma mag_lt m1 e1 m2 e2 :
  -1074 <= e1 -> Zpos m1 < 2 ^ 53 -> 2 ^ 52 <= Zpos m2 -> e1 < e2 ->
  Zpos m1 * 2 ^ (e1 + 1074) < Zpos m2 * 2 ^ (e2 + 1074).
Proof.
  intros He1 Hm1 Hm2 Hlt.
  pose proof (pow2_pos (e1 + 1074) ltac:(lia)) as Hp.
  assert (2 * 2 ^ (e1 + 1074) <= 2 ^ (e2 + 1074)) as Hq.
  { rewrite <- Z.pow_succ_r by lia. apply Z.pow_le_mono_r; lia. }
  change (2 ^ 53) with (2 * 2 ^ 52) in Hm1.
  set (P := 2 ^ (e1 + 1074)) in *. set (R := 2 ^ (e2 + 1074)) in *.
  set (B := 2 ^ 52) in *. assert (0 < B) by (subst B; reflexivity).
  clearbody P R B.
  apply Z.lt_le_trans with (2 * B * P); [nia|].
  apply Z.le_trans with (B * R); nia.
Qed.

Lemma mag_compare m1 e1 m2 e2 :
  SpecFloat.valid_binary FloatOps.prec FloatOps.emax (SpecFloat.S754_finite false m1 e1) = true ->
  SpecFloat.valid_binary FloatOps.prec FloatOps.emax (SpecFloat.S754_finite false m2 e2) = true ->
  (Zpos m1 * 2 ^ (e1 + 1074) ?= Zpos m2 * 2 ^ (e2 + 1074))
  = match e1 ?= e2 with
    | Lt => Lt
    | Gt => Gt
    | Eq => Pos.compare_cont Eq m1 m2
    end.
Proof.
  intros H1 H2. apply valid_finite in H1 as (A1 & B1 & C1).
  apply valid_finite in H2 as (A2 & B2 & C2).
  destruct (Z.compare_spec e1 e2) as [->|Hlt|Hgt].
  - change (Pos.compare_cont Eq m1 m2) with (Zpos m1 ?= Zpos m2).
    pose proof (pow2_pos (e2 + 1074) ltac:(lia)).
    destruct (Z.compare_spec (Zpos m1) (Zpos m2)) as [E|E|E].
    + apply Z.compare_eq_iff. now rewrite E.
    + apply Z.compare_lt_iff. nia.
    + apply Z.compare_gt_iff. nia.
  - apply Z.compare_lt_iff. apply mag_lt; try assumption. apply C2. lia.
  - apply Z.compare_gt_iff. apply mag_lt; try assumption. apply C1. lia.
Qed.

Lemma SFcompare_SF2Z (f1 f2 : SpecFloat.spec_float) q1 q2 :
  SpecFloat.valid_binary FloatOps.prec FloatOps.emax f1 = true ->
  SpecFloat.valid_binary FloatOps.prec FloatOps.emax f2 = true ->
  SF2Q f1 = Some q1 -> SF2Q f2 = Some q2 ->
  SpecFloat.SFcompare f1 f2 = Some (SF2Z f1 ?= SF2Z f2).
Proof.
  intros V1 V2 Q1 Q2.
  destruct f1 as [s1|s1| |s1 m1 e1]; try discriminate;
    destruct f2 as [s2|s2| |s2 m2 e2]; try discriminate; clear Q1 Q2.
  - reflexivity.
  - pose proof (valid_finite _ _ _ V2) as (A2 & _).
    pose proof (pow2_pos (e2 + 1074) ltac:(lia)).
    cbn [SpecFloat.SFcompare SF2Z]. f_equal. symmetry.
    destruct s2; cbn [SpecFloat.cond_Zopp];
      [apply Z.compare_gt_iff|apply Z.compare_lt_iff]; nia.
  - pose proof (valid_finite _ _ _ V1) as (A1 & _).
    pose proof (pow2_pos (e1 + 1074) ltac:(lia)).
    cbn [SpecFloat.SFcompare SF2Z]. f_equal. symmetry.
    destruct s1; cbn [SpecFloat.cond_Zopp];
      [apply Z.compare_lt_iff|apply Z.compare_gt_iff]; nia.
  - pose proof (valid_finite _ _ _ V1) as (A1 & _).
    pose proof (valid_finite _ _ _ V2) as (A2 & _).
    pose proof (pow2_pos (e1 + 1074) ltac:(lia)).
    pose proof (pow2_pos (e2 + 1074) ltac:(lia)).
    assert (SpecFloat.valid_binary FloatOps.prec FloatOps.emax
              (SpecFloat.S754_finite false m1 e1) = true) as V1' by exact V1.
    assert (SpecFloat.valid_binary FloatOps.prec FloatOps.emax
              (SpecFloat.S754_finite false m2 e2) = true) as V2' by exact V2.
    pose proof (mag_compare m1 e1 m2 e2 V1' V2') as Hc.
    cbn [SpecFloat.SFcompare SF2Z]. f_equal.
    destruct s1, s2; cbn [SpecFloat.cond_Zopp].
    + rewrite !Z.mul_opp_l, Z.compare_opp.
      rewrite (Z.compare_antisym (Zpos m1 * 2 ^ (e1 + 1074))), Hc.
      now destruct (e1 ?= e2).
    + symmetry. apply Z.compare_lt_iff. nia.
    + symmetry. apply Z.compare_gt_iff. nia.
    + now rewrite <- Hc.
Qed.

Lemma SF2Q_SF2Z (f : SpecFloat.spec_float) q :
  SpecFloat.valid_binary FloatOps.prec FloatOps.emax f = true ->
  SF2Q f = Some q ->
  (q * inject_Z (2 ^ 1074) == inject_Z (SF2Z f))%Q.
Proof.
  intros V H. destruct f as [s|s| |s m e]; try discriminate; injection H as <-.
  - cbn [SF2Z]. ring.
  - apply valid_finite in V as (He & _). cbn [SF2Z].
    rewrite inject_Z_mult, !Zpower_Qpower by lia.
    rewrite Qpower_plus by discriminate.
    set (a := inject_Z (SpecFloat.cond_Zopp s (Z.pos m))).
    set (b := (inject_Z 2 ^ e)%Q). set (c := (inject_Z 2 ^ 1074)%Q).
    change (2 ^ e)%Q with b. clearbody a b c. ring.
Qed.

Lemma Qlt_escala (q1 q2 : Q) (z1 z2 d : Z) :
  0 < d ->
  (q1 * inject_Z d == inject_Z z1)%Q -> (q2 * inject_Z d == inject_Z z2)%Q ->
  ((q1 < q2)%Q <-> z1 < z2).
Proof.
  intros Hd E1 E2. rewrite Zlt_Qlt, <- E1, <- E2.
  symmetry. apply Qmult_lt_r. change 0%Q with (inject_Z 0).
  rewrite <- Zlt_Qlt. exact Hd.
Qed.

Lemma ltb_valor (x y : PrimFloat.float) (qx qy : Q) :
  valor x = Some qx -> valor y = Some qy ->
  (PrimFloat.ltb x y = true <-> (qx < qy)%Q).
Proof.
  unfold valor. intros Hx Hy.
  pose proof (FloatAxioms.Prim2SF_valid x) as Vx.
  pose proof (FloatAxioms.Prim2SF_valid y) as Vy.
  rewrite FloatAxioms.ltb_spec. unfold SpecFloat.SFltb.
  rewrite (SFcompare_SF2Z _ _ qx qy Vx Vy Hx Hy).
  rewrite (Qlt_escala qx qy _ _ (2 ^ 1074) (pow2_pos 1074 ltac:(lia))
             (SF2Q_SF2Z _ _ Vx Hx) (SF2Q_SF2Z _ _ Vy Hy)).
  rewrite <- Z.compare_lt_iff.
  destruct (SF2Z (FloatOps.Prim2SF x) ?= SF2Z (FloatOps.Prim2SF y));
    split; congruence.
Qed.

Lemma limiar_decimal_ok_0_50 :
  forallb limiar_decimal_ok (map Z.of_nat (seq 0 51)) = true.
Proof. vm_compute. reflexivity. Qed.

(** [classifica] in binary64, on a score that is present: the order of the
    exact values decides, with the computed [limiar - 0.5] as first bound. *)
Lemma classifica_binary64 (limiar s : PrimFloat.float) (row : ResumoRow PrimFloat.float)
      (vt vs vc : Q) :
  PiorNota row = Some s ->
  valor limiar = Some vt -> valor s = Some vs -> valor (limite_critico limiar) = Some vc ->
  ((vs < vc)%Q -> classifica limiar row = (0, "🔥 Crítico"%string))
  /\ (~ (vs < vc)%Q -> (vs < vt)%Q -> classifica limiar row = (1, "⚠️ Alerta"%string))
  /\ (~ (vs < vc)%Q -> ~ (vs < vt)%Q -> classifica limiar row = (2, "OK"%string)).
Proof.
  intros Hs Ht Hvs Hc. unfold classifica. rewrite Hs.
  cbn [num_ltb num_sub Binary64]. fold (limite_critico limiar).
  pose proof (ltb_valor s (limite_critico limiar) vs vc Hvs Hc) as H1.
  pose proof (ltb_valor s limiar vs vt Hvs Ht) as H2.
  destruct (PrimFloat.ltb s (limite_critico limiar));
    destruct (PrimFloat.ltb s limiar); intuition congruence.
Qed.

Lemma classifica_decimal (k : Z) (s : PrimFloat.float) (row : ResumoRow PrimFloat.float)
      (vs : Q) :
  0 <= k <= 50 -> PiorNota row = Some s -> valor s = Some vs ->
  5 <= k \/ (0 <= vs)%Q ->
  exists vt,
    valor (decimal k 1) = Some vt
    /\ ((vs < vt - 0.5)%Q -> classifica (decimal k 1) row = (0, "🔥 Crítico"%string))
    /\ (~ (vs < vt - 0.5)%Q -> (vs < vt)%Q ->
        classifica (decimal k 1) row = (1, "⚠️ Alerta"%string))
    /\ (~ (vs < vt - 0.5)%Q -> ~ (vs < vt)%Q ->
        classifica (decimal k 1) row = (2, "OK"%string)).
Proof.
  intros Hk Hs Hvs Hcase.
  assert (limiar_decimal_ok k = true) as Hok.
  { apply (proj1 (forallb_forall _ _) limiar_decimal_ok_0_50).
    apply in_map_iff. exists (Z.to_nat k). split; [lia|]. apply in_seq. lia. }
  unfold limiar_decimal_ok in Hok.
  destruct (valor (decimal k 1)) as [vt|] eqn:Et; [|discriminate].
  destruct (valor (limite_critico (decimal k 1))) as [vc|] eqn:Ec; [|discriminate].
  exists vt. split; [reflexivity|].
  destruct (classifica_binary64 (decimal k 1) s row vt vs vc Hs Et Hvs Ec) as (R0 & R1 & R2).
  assert ((vs < vc)%Q <-> (vs < vt - 0.5)%Q) as Hiff.
  { apply orb_true_iff in Hok as [E|E].
    - apply Qeq_bool_iff in E. now rewrite E.
    - apply andb_true_iff in E as (E & E3). apply andb_true_iff in E as (E1 & E2).
      apply Z.ltb_lt in E1. apply Qltb_lt in E2. apply Qltb_lt in E3.
      destruct Hcase as [H5|Hpos]; [lia|]. split; intros H; exfalso; lra. }
  split; [|split].
  - intros H. apply R0. now apply Hiff.
  - intros H1 H2. apply R1; [|assumption]. intros H. apply H1. now apply Hiff.
  - intros H1 H2. apply R2; [|assumption]. intros H. apply H1. now apply Hiff.
Qed.

(** C2: [classifica] is a four-way rule read in order. In exact arithmetic
    it is the rule of the claim for every threshold and score: no score
    gives 3; a score under [limiar - 0.5] gives 0; otherwise a score under
    [limiar] gives 1; otherwise 2. In binary64, the arithmetic of the
    program, the same holds on the exact values of the numbers with the
    computed, rounded [limiar - 0.5] as first bound; the difference is
    computed without rounding for the decimal thresholds 0.5 to 5.0, and for
    the thresholds 0.0 to 0.4 the rule with [limiar - 0.5] holds for scores
    that are not negative. With [limiar = 3.0]: 2.49 gives 0, 2.5 gives 1,
    2.99 gives 1, 3.0 gives 2, no score gives 3, in both arithmetics. *)
Theorem classifica_rule :
  (forall (limiar : Q) (row : ResumoRow Q),
      (PiorNota row = None -> classifica limiar row = (3, "⏸️ Sem avaliação"%string))
      /\ (forall s, PiorNota row = Some s ->
           (s < limiar - 0.5)%Q -> classifica limiar row = (0, "🔥 Crítico"%string))
      /\ (forall s, PiorNota row = Some s ->
           ~ (s < limiar - 0.5)%Q -> (s < limiar)%Q ->
           classifica limiar row = (1, "⚠️ Alerta"%string))
      /\ (forall s, PiorNota row = Some s ->
           ~ (s < limiar - 0.5)%Q -> ~ (s < limiar)%Q ->
           classifica limiar row = (2, "OK"%string)))
  /\ (forall (limiar : PrimFloat.float) (row : ResumoRow PrimFloat.float),
         PiorNota row = None -> classifica limiar row = (3, "⏸️ Sem avaliação"%string))
  /\ (forall (limiar s : PrimFloat.float) (row : ResumoRow PrimFloat.float) (vt vs vc : Q),
         PiorNota row = Some s ->
         valor limiar = Some vt -> valor s = Some vs ->
         valor (limite_critico limiar) = Some vc ->
         ((vs < vc)%Q -> classifica limiar row = (0, "🔥 Crítico"%string))
         /\ (~ (vs < vc)%Q -> (vs < vt)%Q ->
             classifica limiar row = (1, "⚠️ Alerta"%string))
         /\ (~ (vs < vc)%Q -> ~ (vs < vt)%Q ->
             classifica limiar row = (2, "OK"%string)))
  /\ (forall (k : Z) (s : PrimFloat.float) (row : ResumoRow PrimFloat.float) (vs : Q),
         0 <= k <= 50 -> PiorNota row = Some s -> valor s = Some vs ->
         5 <= k \/ (0 <= vs)%Q ->
         exists vt,
           valor (decimal k 1) = Some vt
           /\ ((vs < vt - 0.5)%Q ->
               classifica (decimal k 1) row = (0, "🔥 Crítico"%string))
           /\ (~ (vs < vt - 0.5)%Q -> (vs < vt)%Q ->
               classifica (decimal k 1) row = (1, "⚠️ Alerta"%string))
           /\ (~ (vs < vt - 0.5)%Q -> ~ (vs < vt)%Q ->
               classifica (decimal k 1) row = (2, "OK"%string)))
  /\ map (fun s => fst (classifica 3.0%Q (linha_com_nota s)))
         [Some 2.49%Q; Some 2.5%Q; Some 2.99%Q; Some 3.0%Q; None]
     = [0; 1; 1; 2; 3]
  /\ map (fun s => fst (classifica (num := PrimFloat.float) (decimal 30 1)
                                   (linha_com_nota s)))
         [Some (decimal 249 2); Some (decimal 25 1); Some (decimal 299 2);
          Some (decimal 30 1); None]
     = [0; 1; 1; 2; 3].
Proof.
  split; [|split; [|split; [|split; [|split]]]].
  - intros limiar row. unfold classifica. repeat split.
    + intros ->. reflexivity.
    + intros s -> H. exato. apply Qltb_lt in H. now rewrite H.
    + intros s -> H1 H2. exato. apply Qltb_ge in H1. apply Qltb_lt in H2.
      now rewrite H1, H2.
    + intros s -> H1 H2. exato. apply Qltb_ge in H1. apply Qltb_ge in H2.
      now rewrite H1, H2.
  - intros limiar row H. unfold classifica. now rewrite H.
  - apply classifica_binary64.
  - apply classifica_decimal.
  - reflexivity.
  - reflexivity.
Qed.

(** In binary64 the rule of the claim fails at the threshold 0.1 and the
    score -0.4: on the exact values the score is under [limiar - 0.5], which
    asks for 0, and [classifica] gives 1, since [0.1 - 0.5] is rounded to
    the score itself. *)
Lemma classifica_rule_binary64_counterexample :
  exists (vt vs : Q),
    valor (decimal 1 1) = Some vt
    /\ valor (decimal (-4) 1) = Some vs
    /\ (vs < vt - 0.5)%Q
    /\ limite_critico (decimal 1 1) = decimal (-4) 1
    /\ classifica (num := PrimFloat.float) (decimal 1 1) (linha_com_nota (Some (decimal (-4) 1)))
       = (1, "⚠️ Alerta"%string).
Proof.
  do 2 eexists. split; [vm_compute; reflexivity|]. split; [vm_compute; reflexivity|].
  split; [vm_compute; reflexivity|]. split; reflexivity.
Qed.

Lemma classifica_rule_witness :
  classifica (num := PrimFloat.float) (decimal 30 1) (linha_com_nota (Some (decimal 275 2)))
  = (1, "⚠️ Alerta"%string).
Proof.
  destruct (proj1 (proj2 (proj2 (proj2 classifica_rule))) 30 (decimal 275 2)
              (linha_com_nota (Some (decimal 275 2)))
              (6192449487634432 # 2251799813685248)%Q)
    as (vt & Hvt & _ & H1 & _).
  - lia.
  - reflexivity.
  - vm_compute. reflexivity.
  - left. lia.
  - vm_compute in Hvt. injection Hvt as <-.
    apply H1; [intros H; vm_compute in H; discriminate|reflexivity].
Defined.


(** ** Sorting *)

Section OrdenaFacts.
Context {A : Type} (leb : A -> A -> bool).

Let le (a b : A) : Prop := leb a b = true.

Lemma insere_perm x l : Permutation (insere leb x l) (x :: l).
Proof.
  induction l as [|y t IH]; cbn.
  - reflexivity.
  - destruct (leb x y).
    + reflexivity.
    + rewrite IH. apply perm_swap.
Qed.

Lemma ordena_perm l : Permutation (ordena leb l) l.
Proof.
  induction l as [|x t IH]; cbn.
  - constructor.
  - rewrite insere_perm. now constructor.
Qed.

Lemma ordena_In x l : In x (ordena leb l) <-> In x l.
Proof.
  split; apply Permutation_in; [|symmetry]; apply ordena_perm.
Qed.

Lemma insere_HdRel x y l : le y x -> HdRel le y l -> HdRel le y (insere leb x l).
Proof.
  intros Hyx Hl. destruct l as [|z t]; cbn.
  - now constructor.
  - destruct (leb x z); constructor; [assumption|].
    now inversion Hl.
Qed.

(** The order is total on the rows that satisfy [P]. *)
Variable P : A -> Prop.
Hypothesis leb_total : forall a b, P a -> P b -> leb a b = false -> leb b a = true.

Lemma insere_sorted x l :
  P x -> Forall P l -> Sorted le l -> Sorted le (insere leb x l).
Proof.
  intros Hx HP Hs. induction Hs as [|y t Ht IH Hhd]; cbn.
  - repeat constructor.
  - inversion HP as [|? ? Hy HPt]; subst. destruct (leb x y) eqn:E.
    + constructor; [now constructor|]. now constructor.
    + constructor; [now apply IH|].
      apply insere_HdRel; [|exact Hhd]. now apply leb_total.
Qed.

Lemma ordena_sorted l : Forall P l -> Sorted le (ordena leb l).
Proof.
  induction l as [|x t IH]; intros HP; cbn.
  - constructor.
  - inversion HP as [|? ? Hx HPt]; subst. apply insere_sorted; [assumption| |now apply IH].
    apply (Permutation_Forall (Permutation_sym (ordena_perm t))). exact HPt.
Qed.
End OrdenaFacts.

Lemma Sorted_adjacent {A : Type} (R : A -> A -> Prop) (l : list A) :
  Sorted R l ->
  forall i a b, nth_error l i = Some a -> nth_error l (S i) = Some b -> R a b.
Proof.
  induction 1 as [|x t Ht IH Hhd]; intros i a b Ha Hb.
  - destruct i; discriminate.
  - destruct i as [|i]; cbn in Ha, Hb.
    + injection Ha as <-. destruct t as [|y t']; [discriminate|].
      injection Hb as <-. now inversion Hhd.
    + eapply IH; eassumption.
Qed.

(** ** The report is ordered *)

Section RelatorioFacts.
Context {num : Type} {ar : Arit num}.

Lemma classifica_sem_nota (limiar : num) (row : ResumoRow num) :
  PiorNota row = None <-> fst (classifica limiar row) = 3.
Proof.
  unfold classifica. destruct (PiorNota row) as [p|].
  - destruct (num_ltb p (num_sub limiar num_half)); [|destruct (num_ltb p limiar)];
      cbn; split; intros; discriminate.
  - split; reflexivity.
Qed.

Lemma relatorio_In (limiar : num) (df : list (ResumoRow num)) r :
  In r (relatorio limiar df) <->
  exists row, In row df
              /\ r = {| linha := row;
                        Severidade := fst (classifica limiar row);
                        Status := snd (classifica limiar row) |}.
Proof.
  unfold relatorio, sort_values, classifica_linha.
  rewrite ordena_In, in_map_iff. split; intros (row & H1 & H2); exists row; auto.
Qed.

Lemma fetch_resumo_Some db month (limiar : num) df :
  fetch_resumo db month limiar = Some df <->
  SQL_RESUMO db (fst (interval_month month)) (snd (interval_month month)) limiar <> []
  /\ df = relatorio limiar (SQL_RESUMO db (fst (interval_month month))
                                       (snd (interval_month month)) limiar).
Proof.
  unfold fetch_resumo. destruct (interval_month month) as [d_ini d_fim]. cbn [fst snd].
  destruct (SQL_RESUMO db d_ini d_fim limiar) as [|x xs].
  - split; [discriminate|]. intros (H & _). congruence.
  - unfold relatorio. cbn [apply_classifica option_map]. split.
    + intros H. split; [discriminate|congruence].
    + intros (_ & ->). reflexivity.
Qed.

Lemma sort_key_leb_spec (a b : RelatorioRow num) :
  sort_key_leb a b = true ->
  Severidade a < Severidade b
  \/ (Severidade a = Severidade b /\ nota_leb (PiorNota a) (PiorNota b) = true).
Proof.
  unfold sort_key_leb. intros H. apply orb_true_iff in H as [H|H].
  - left. now apply Z.ltb_lt.
  - right. apply andb_true_iff in H as [H1 H2].
    split; [now apply Z.eqb_eq | assumption].
Qed.

(** [num_leb] is total on the scores that satisfy [ok]. *)
Variable ok : num -> Prop.
Hypothesis num_leb_total :
  forall p q, ok p -> ok q -> num_leb p q = false -> num_leb q p = true.

Let nota_ok (x : option num) : Prop := forall v, x = Some v -> ok v.

Lemma nota_leb_total (x y : option num) :
  nota_ok x -> nota_ok y -> nota_leb x y = false -> nota_leb y x = true.
Proof.
  destruct x as [p|], y as [q|]; cbn; try congruence.
  intros Hp Hq. apply num_leb_total; [now apply Hp | now apply Hq].
Qed.

Lemma sort_key_leb_total (a b : RelatorioRow num) :
  nota_ok (PiorNota a) -> nota_ok (PiorNota b) ->
  sort_key_leb a b = false -> sort_key_leb b a = true.
Proof.
  unfold sort_key_leb. intros Ha Hb H.
  apply orb_false_iff in H as [H1 H2].
  apply Z.ltb_ge in H1.
  destruct (Z.ltb_spec (Severidade b) (Severidade a)) as [|H3]; [reflexivity|].
  assert (Severidade a = Severidade b) as E by lia.
  rewrite E, Z.eqb_refl in *. cbn in *. now apply nota_leb_total.
Qed.

(** The frame after [sort_values] is in ascending order of
    [(Severidade, PiorNota)], missing scores last. *)
Lemma relatorio_adjacent (limiar : num) (df : list (ResumoRow num)) :
  (forall row v, In row df -> PiorNota row = Some v -> ok v) ->
  forall i a b,
    nth_error (relatorio limiar df) i = Some a ->
    nth_error (relatorio limiar df) (S i) = Some b ->
    Severidade a < Severidade b
    \/ (Severidade a = Severidade b /\ nota_leb (PiorNota a) (PiorNota b) = true).
Proof.
  intros Hdf i a b Ha Hb. apply sort_key_leb_spec.
  apply (Sorted_adjacent (fun x y => sort_key_leb x y = true)
           (relatorio limiar df)) with (i := i); [|assumption..].
  apply (ordena_sorted sort_key_leb (fun r : RelatorioRow num => nota_ok (PiorNota r))).
  - intros x y. apply sort_key_leb_total.
  - apply Forall_forall. intros r Hr. apply in_map_iff in Hr as (row & <- & Hrow).
    intros v Hv. now apply (Hdf row).
Qed.
End RelatorioFacts.

Lemma Qle_bool_total (p q : Q) : Qle_bool p q = false -> Qle_bool q p = true.
Proof.
  intros H. apply Qle_bool_iff. apply Qlt_le_weak. apply Qnot_le_lt.
  intros Hle. apply Qle_bool_iff in Hle. congruence.
Qed.

Lemma nota_leb_le (x y : option Q) : nota_leb x y = true -> nota_le x y.
Proof.
  destruct x as [p|], y as [q|]; cbn; try congruence; try tauto.
  apply Qle_bool_iff.
Qed.

(** C3: in the frame [fetch_resumo] returns, which is [relatorio] of the rows
    of the query ([fetch_resumo] returns no frame, it raises, when the query
    returns no row), two adjacent rows [a], [b] have
    [a.Severidade < b.Severidade], or the same [Severidade] and
    [a.PiorNota <= b.PiorNota] with a missing score above every number; and a
    score is missing exactly in the rows of [Severidade] 3. *)
Theorem relatorio_ordered (limiar : Q) (df : list (ResumoRow Q)) :
  (forall i a b,
      nth_error (relatorio limiar df) i = Some a ->
      nth_error (relatorio limiar df) (S i) = Some b ->
      Severidade a < Severidade b
      \/ (Severidade a = Severidade b /\ nota_le (PiorNota a) (PiorNota b)))
  /\ (forall r, In r (relatorio limiar df) ->
                (PiorNota r = None <-> Severidade r = 3))
  /\ (forall db month,
        fetch_resumo db month limiar
        = match SQL_RESUMO db (fst (interval_month month))
                           (snd (interval_month month)) limiar with
          | [] => None
          | linhas => Some (relatorio limiar linhas)
          end).
Proof.
  split; [|split].
  - intros i a b Ha Hb.
    destruct (relatorio_adjacent (ar := Exato) (fun _ : Q => True)
                (fun p q _ _ => Qle_bool_total p q) limiar df
                (fun _ _ _ _ => I) i a b Ha Hb) as [H|[H1 H2]];
      [now left | right; split; [assumption | now apply nota_leb_le]].
  - intros r Hr. apply relatorio_In in Hr as (row & _ & ->). cbn.
    apply classifica_sem_nota.
  - intros db month. unfold fetch_resumo.
    destruct (interval_month month) as [d_ini d_fim]. cbn [fst snd].
    now destruct (SQL_RESUMO db d_ini d_fim limiar).
Qed.

Lemma relatorio_ordered_witness :
  exists a b,
    nth_error (relatorio 3.0%Q df_exemplo) 0 = Some a
    /\ nth_error (relatorio 3.0%Q df_exemplo) 1 = Some b
    /\ (Severidade a < Severidade b
        \/ (Severidade a = Severidade b /\ nota_le (PiorNota a) (PiorNota b))).
Proof.
  do 2 eexists. split; [reflexivity|]. split; [reflexivity|].
  apply (proj1 (relatorio_ordered 3.0%Q df_exemplo) 0%nat); reflexivity.
Defined.

(** *** The same in binary64 *)

Lemma SFcompare_antisym (x y : SpecFloat.spec_float) :
  SpecFloat.SFcompare y x = option_map CompOpp (SpecFloat.SFcompare x y).
Proof.
  destruct x as [s1|s1| |s1 m1 e1], y as [s2|s2| |s2 m2 e2]; cbn;
    try reflexivity; try (destruct s1; reflexivity); try (destruct s2; reflexivity);
    try (destruct s1, s2; reflexivity).
  destruct s1, s2; cbn; try reflexivity.
  - rewrite (Z.compare_antisym e1 e2). destruct (e1 ?= e2)%Z; cbn; try reflexivity.
    now rewrite (Pos.compare_cont_antisym m1 m2 Eq).
  - rewrite (Z.compare_antisym e1 e2). destruct (e1 ?= e2)%Z; cbn; try reflexivity.
    now rewrite (Pos.compare_cont_antisym m1 m2 Eq).
Qed.

(** [<=] is total on the binary64 numbers. *)
Lemma float_leb_total (a b : PrimFloat.float) :
  numero a -> numero b -> PrimFloat.leb a b = false -> PrimFloat.leb b a = true.
Proof.
  unfold numero. rewrite !FloatAxioms.eqb_spec, !FloatAxioms.leb_spec.
  unfold SpecFloat.SFeqb, SpecFloat.SFleb.
  rewrite (SFcompare_antisym (FloatOps.Prim2SF a) (FloatOps.Prim2SF b)).
  destruct (FloatOps.Prim2SF a) as [s1|s1| |s1 m1 e1],
           (FloatOps.Prim2SF b) as [s2|s2| |s2 m2 e2];
    try (cbn; discriminate).
  all: intros _ _; destruct (SpecFloat.SFcompare _ _) as [[]|] eqn:E;
    cbn; try reflexivity; try discriminate.
  all: cbn in E; try discriminate.
Qed.

(** X2: the ordering of C3 in binary64: when every score of the frame is a
    number, two adjacent rows of the frame [fetch_resumo] returns are in
    ascending order of [(Severidade, PiorNota)], missing scores last. *)
Theorem relatorio_ordered_binary64
        (limiar : PrimFloat.float) (df : list (ResumoRow PrimFloat.float)) :
  (forall row v, In row df -> PiorNota row = Some v -> numero v) ->
  forall i a b,
    nth_error (relatorio limiar df) i = Some a ->
    nth_error (relatorio limiar df) (S i) = Some b ->
    Severidade a < Severidade b
    \/ (Severidade a = Severidade b /\ nota_leb (PiorNota a) (PiorNota b) = true).
Proof.
  intros Hdf. apply (relatorio_adjacent (ar := Binary64) numero); [|exact Hdf].
  exact float_leb_total.
Qed.

Lemma relatorio_ordered_binary64_witness :
  exists a b,
    nth_error (relatorio (decimal 30 1) df_exemplo_binary64) 0 = Some a
    /\ nth_error (relatorio (decimal 30 1) df_exemplo_binary64) 1 = Some b
    /\ (Severidade a < Severidade b
        \/ (Severidade a = Severidade b /\ nota_leb (PiorNota a) (PiorNota b) = true)).
Proof.
  do 2 eexists. split; [reflexivity|]. split; [reflexivity|].
  apply (relatorio_ordered_binary64 (decimal 30 1) df_exemplo_binary64) with (i := 0%nat);
    [|reflexivity..].
  intros row v [<-|[<-|[<-|[]]]] [= <-]; reflexivity.
Defined.

(** ** Relational operators *)

Section RelationalFacts.
Context {A B K : Type}.

Lemma in_JOIN (on : A -> B -> bool) l r a b :
  In (a, b) (JOIN on l r) <-> In a l /\ In b r /\ on a b = true.
Proof.
  unfold JOIN. rewrite in_flat_map. split.
  - intros (a' & Ha & H). apply in_map_iff in H as (b' & E & Hb).
    injection E as -> ->. apply filter_In in Hb. tauto.
  - intros (Ha & Hb & Hon). exists a. split; [assumption|].
    apply in_map. apply filter_In. tauto.
Qed.

Lemma in_LEFT_JOIN (on : A -> B -> bool) l r a ob :
  In (a, ob) (LEFT_JOIN on l r) <->
  In a l /\ match ob with
            | Some b => In b r /\ on a b = true
            | None => forall b, In b r -> on a b = false
            end.
Proof.
  unfold LEFT_JOIN. rewrite in_flat_map. split.
  - intros (a' & Ha & H). destruct (filter (on a') r) as [|b0 bs] eqn:E.
    + destruct H as [H|[]]. injection H as -> <-. split; [assumption|].
      intros b Hb. destruct (on a b) eqn:Eon; [|reflexivity].
      assert (In b (filter (on a) r)) as Hin by (apply filter_In; tauto).
      rewrite E in Hin. destruct Hin.
    + apply in_map_iff in H as (b & H & Hb). injection H as -> <-.
      split; [assumption|]. rewrite <- E in Hb. apply filter_In in Hb. exact Hb.
  - intros (Ha & H). exists a. split; [assumption|].
    destruct ob as [b|].
    + assert (In b (filter (on a) r)) as Hin by (apply filter_In; tauto).
      destruct (filter (on a) r) as [|b0 bs]; [destruct Hin|].
      now apply (in_map (fun b => (a, Some b))).
    + destruct (filter (on a) r) as [|b0 bs] eqn:E; [now left|].
      assert (In b0 (filter (on a) r)) as Hin by (rewrite E; now left).
      apply filter_In in Hin as (Hin & Hon). rewrite (H _ Hin) in Hon. discriminate.
Qed.

Variable K_dec : forall x y : K, {x = y} + {x <> y}.

Lemma same_key_true (key : A -> K) k a : same_key K_dec key k a = true <-> key a = k.
Proof.
  unfold same_key. destruct (K_dec (key a) k); split; congruence.
Qed.

Lemma in_GROUP_BY (key : A -> K) l k g :
  In (k, g) (GROUP_BY K_dec key l) <->
  (exists a, In a l /\ key a = k) /\ g = filter (same_key K_dec key k) l.
Proof.
  unfold GROUP_BY. rewrite in_map_iff. split.
  - intros (k' & E & Hk). injection E as -> <-.
    apply nodup_In, in_map_iff in Hk as (a & Ha & Hin). split; [|reflexivity].
    exists a. tauto.
  - intros ((a & Ha & Hk) & ->). exists k. split; [reflexivity|].
    apply nodup_In, in_map_iff. exists a. tauto.
Qed.

(** Every group is inhabited, and its rows carry its key. *)
Lemma GROUP_BY_rows (key : A -> K) l k g :
  In (k, g) (GROUP_BY K_dec key l) ->
  g <> [] /\ forall a, In a g <-> In a l /\ key a = k.
Proof.
  intros H. apply in_GROUP_BY in H as ((a & Ha & Hk) & ->). split.
  - intros E. assert (In a (filter (same_key K_dec key k) l)) as Hin
      by (apply filter_In; split; [assumption | now apply same_key_true]).
    rewrite E in Hin. destruct Hin.
  - intros a'. rewrite filter_In, same_key_true. tauto.
Qed.

Lemma GROUP_BY_keys_NoDup (key : A -> K) l :
  NoDup (map fst (GROUP_BY K_dec key l)).
Proof.
  unfold GROUP_BY. rewrite map_map. cbn. rewrite map_id. apply NoDup_nodup.
Qed.
End RelationalFacts.

(** ** SQL_DETALHES *)

Lemma BETWEEN_no_periodo d ini fim : BETWEEN d ini fim = true <-> no_periodo d ini fim.
Proof. unfold BETWEEN, no_periodo. apply andb_true_iff. Qed.

Lemma in_detalhes_from db cid d_ini d_fim pec ac col :
  In (pec, ac, col) (detalhes_from db cid d_ini d_fim) <->
  In pec (tb_ProjetoEmpresaColaboradores db)
  /\ In ac (tb_AvaliacaoColaboradores db)
  /\ In col (tb_Colaboradores db)
  /\ ac_ColaboradorId ac = pec_ColaboradorId pec
  /\ no_periodo (ac_Periodo ac) d_ini d_fim
  /\ col_Id col = ac_ColaboradorId ac
  /\ pec_ContratoId pec = cid /\ ac_ContratoId ac = cid /\ pec_Ativo pec = true.
Proof.
  unfold detalhes_from. rewrite filter_In, !in_JOIN. cbn.
  rewrite !andb_true_iff, !Z.eqb_eq, BETWEEN_no_periodo. tauto.
Qed.

Lemma in_detalhes_rows db cid d_ini d_fim j :
  In j (detalhes_rows db cid d_ini d_fim) <-> In j (detalhes_from db cid d_ini d_fim).
Proof. apply ordena_In. Qed.

(** C4: a row of [SQL_DETALHES] has its period inside [d_ini, d_fim]; it
    comes from an evaluation of the store whose own [ContratoId] is [cid];
    and an evaluation recorded against another contract is behind no row,
    whatever its collaborator is assigned to: in [db_exemplo] Ana is actively
    assigned to contract 1, her evaluation is recorded against contract 2,
    and the details of contract 1 are empty. *)
Theorem detalhes_scope {num : Type} {ar : Arit num}
        (db : Banco) (cid : Z) (d_ini d_fim : date) :
  (forall r : DetalheRow num, In r (SQL_DETALHES db cid d_ini d_fim) ->
     no_periodo (Periodo r) d_ini d_fim
     /\ exists j, In j (detalhes_rows db cid d_ini d_fim)
                  /\ r = detalhes_select j
                  /\ In (d_ac j) (tb_AvaliacaoColaboradores db)
                  /\ ac_ContratoId (d_ac j) = cid
                  /\ no_periodo (ac_Periodo (d_ac j)) d_ini d_fim)
  /\ (forall pec ac col,
        ac_ContratoId ac <> cid ->
        ~ In (pec, ac, col) (detalhes_rows db cid d_ini d_fim))
  /\ (In (mkPec 1 100 true) (ativos db_exemplo 1)
      /\ In (mkAvaliacao 100 2 (mkdate 2024 2 10) 2 2 2 None)
            (avaliacoes_no_periodo db_exemplo fev_ini fev_fim)
      /\ SQL_DETALHES (num := num) db_exemplo 1 fev_ini fev_fim = []).
Proof.
  split.
  - intros r Hr. unfold SQL_DETALHES in Hr.
    apply in_map_iff in Hr as (j & <- & Hj).
    pose proof Hj as Hj'. destruct j as [[pec ac] col].
    apply in_detalhes_rows, in_detalhes_from in Hj'. cbn.
    split; [tauto|]. exists (pec, ac, col). cbn. tauto.
  - split.
    + intros pec ac col Hne Hin.
      apply in_detalhes_rows, in_detalhes_from in Hin. tauto.
    + split; [now left|]. split; [now left | reflexivity].
Qed.

Lemma detalhes_scope_witness :
  no_periodo (mkdate 2024 2 10) fev_ini fev_fim.
Proof.
  exact (proj1 (proj1 (detalhes_scope (num := Q) db_exemplo 2 fev_ini fev_fim)
                  (mkDetalhe "Ana" (mkdate 2024 2 10) ((2 + 2 + 2) / 3)%Q 2 2 2 None)
                  (or_introl eq_refl))).
Defined.

(** ** Aggregates in exact arithmetic *)

Lemma fold_left_Qplus (l : list Q) (a : Q) : (fold_left Qplus l a == a + Qsum l)%Q.
Proof.
  revert a. induction l as [|x t IH]; intros a; cbn [fold_left].
  - unfold Qsum. cbn [fold_right]. lra.
  - rewrite IH. unfold Qsum. cbn [fold_right]. lra.
Qed.

(** Adding up in row order gives the sum. *)
Lemma num_sum_Qsum (l : list Q) : (num_sum l == Qsum l)%Q.
Proof.
  unfold num_sum. exato. rewrite fold_left_Qplus. change (inject_Z 0) with 0%Q. lra.
Qed.

Lemma num_min_Q (a b : Q) :
  (num_min a b = a \/ num_min a b = b)
  /\ (num_min a b <= a)%Q /\ (num_min a b <= b)%Q.
Proof.
  unfold num_min. exato. destruct (Qle_bool a b) eqn:E.
  - apply Qle_bool_iff in E. repeat split; auto; lra.
  - assert (~ (a <= b)%Q) by (rewrite <- Qle_bool_iff; congruence).
    repeat split; auto; lra.
Qed.

Lemma fold_min_spec (vs : list Q) (v : Q) :
  (fold_left num_min vs v = v \/ In (fold_left num_min vs v) vs)
  /\ (fold_left num_min vs v <= v)%Q
  /\ (forall x, In x vs -> (fold_left num_min vs v <= x)%Q).
Proof.
  revert v. induction vs as [|y t IH]; intros v; cbn [fold_left In].
  - repeat split; [now left | lra | tauto].
  - destruct (IH (num_min v y)) as (H1 & H2 & H3).
    destruct (num_min_Q v y) as (Hm & Hl & Hr). repeat split.
    + destruct H1 as [H1|H1]; [|right; now right].
      rewrite H1. destruct Hm as [->| ->]; [now left | right; now left].
    + lra.
    + intros x [<-|Hx]; [lra | now apply H3].
Qed.

(** [MIN] is a least element of the column. *)
Lemma MIN_spec (l : list (option Q)) m :
  MIN l = Some m -> In m (non_null l) /\ forall x, In x (non_null l) -> (m <= x)%Q.
Proof.
  unfold MIN. destruct (non_null l) as [|v vs]; [discriminate|]. intros [= <-].
  destruct (fold_min_spec vs v) as (H1 & H2 & H3). split.
  - destruct H1 as [->|H1]; [now left | now right].
  - intros x [<-|Hx]; [exact H2 | now apply H3].
Qed.

(** [AVG] is the sum over the count. *)
Lemma AVG_spec (l : list (option Q)) m :
  AVG l = Some m ->
  non_null l <> []
  /\ (m == Qsum (non_null l) / inject_Z (Z.of_nat (List.length (non_null l))))%Q.
Proof.
  unfold AVG. destruct (non_null l) as [|v vs] eqn:E; [discriminate|]. intros [= <-].
  split; [discriminate|]. exato. now rewrite num_sum_Qsum.
Qed.

Lemma inject_Z_length_S {A : Type} (x : A) (l : list A) :
  (inject_Z (Z.of_nat (List.length (x :: l))) == inject_Z (Z.of_nat (List.length l)) + 1)%Q.
Proof.
  cbn [List.length]. rewrite Nat2Z.inj_succ, <- Z.add_1_r, inject_Z_plus. reflexivity.
Qed.

Lemma Qsum_lower_bound (m : Q) (l : list Q) :
  (forall x, In x l -> (m <= x)%Q) ->
  (m * inject_Z (Z.of_nat (List.length l)) <= Qsum l)%Q.
Proof.
  induction l as [|x t IH]; intros H.
  - change (m * 0 <= 0)%Q. lra.
  - rewrite inject_Z_length_S. cbn [Qsum fold_right].
    assert (m <= x)%Q by (apply H; now left).
    assert (m * inject_Z (Z.of_nat (List.length t)) <= Qsum t)%Q
      by (apply IH; intros y Hy; apply H; now right).
    unfold Qsum in *. lra.
Qed.

Lemma length_pos_Q {A : Type} (l : list A) :
  l <> [] -> (0 < inject_Z (Z.of_nat (List.length l)))%Q.
Proof.
  intros H. change 0%Q with (inject_Z 0). rewrite <- Zlt_Qlt.
  destruct l; [congruence|]. cbn [List.length]. lia.
Qed.

(** In exact arithmetic the minimum of a column is at most its average. *)
Lemma MIN_le_AVG (l : list (option Q)) w m :
  MIN l = Some w -> AVG l = Some m -> (w <= m)%Q.
Proof.
  intros Hw Hm. apply MIN_spec in Hw as (_ & Hle). apply AVG_spec in Hm as (Hne & ->).
  apply Qle_shift_div_l; [now apply length_pos_Q|].
  now apply Qsum_lower_bound.
Qed.

(** ** SQL_RESUMO *)

Section ResumoFacts.
Context {num : Type} {ar : Arit num}.

Lemma in_SQL_RESUMO db d_ini d_fim (limiar : num) (r : ResumoRow num) :
  In r (SQL_RESUMO db d_ini d_fim limiar) <->
  exists k g, In (k, g) (GROUP_BY ResumoKey_dec resumo_key (resumo_from db d_ini d_fim))
              /\ r = resumo_select limiar (k, g).
Proof.
  unfold SQL_RESUMO. rewrite in_map_iff. split.
  - intros ([k g] & <- & H). now exists k, g.
  - intros (k & g & H & ->). now exists (k, g).
Qed.

Lemma AVG_nil_iff (l : list (option num)) : AVG l = None <-> non_null l = [].
Proof.
  unfold AVG. destruct (non_null l); split; congruence.
Qed.

Lemma non_null_all_None {A : Type} (l : list (option A)) :
  (forall v, In v l -> v = None) -> non_null l = [].
Proof.
  induction l as [|[a|] t IH]; intros H; cbn.
  - reflexivity.
  - specialize (H (Some a) (or_introl eq_refl)). discriminate.
  - apply IH. intros v Hv. apply H. now right.
Qed.

Lemma in_avaliacoes_no_periodo db ini fim ac :
  In ac (avaliacoes_no_periodo db ini fim) <->
  In ac (tb_AvaliacaoColaboradores db) /\ no_periodo (ac_Periodo ac) ini fim.
Proof.
  unfold avaliacoes_no_periodo. now rewrite filter_In, BETWEEN_no_periodo.
Qed.

(** The CTE has one row per evaluated collaborator, holding [nota_media]. *)
Lemma notas_eq db ini fim :
  notas (num := num) db ini fim =
  map (fun x => mkNotas x (nota_media db ini fim x))
      (nodup Z.eq_dec (map ac_ColaboradorId (avaliacoes_no_periodo db ini fim))).
Proof.
  unfold notas, GROUP_BY. rewrite map_map. apply map_ext. intros x. cbn.
  unfold nota_media. do 3 f_equal. apply filter_ext. intros ac.
  unfold same_key. destruct (Z.eq_dec (ac_ColaboradorId ac) x) as [E|E].
  - symmetry. now apply Z.eqb_eq.
  - symmetry. now apply Z.eqb_neq.
Qed.

Lemma in_notas db ini fim (n : NotasRow num) :
  In n (notas db ini fim) <->
  (exists ac, In ac (avaliacoes_no_periodo db ini fim)
              /\ ac_ColaboradorId ac = n_ColaboradorId n)
  /\ n_NotaMedia n = nota_media db ini fim (n_ColaboradorId n).
Proof.
  rewrite notas_eq, in_map_iff. split.
  - intros (x & <- & Hx). apply nodup_In, in_map_iff in Hx as (ac & E & Hac).
    cbn. split; [|reflexivity]. now exists ac.
  - intros ((ac & Hac & E) & Hn). exists (n_ColaboradorId n). split.
    + destruct n as [x v]. cbn in *. now rewrite Hn.
    + apply nodup_In, in_map_iff. now exists ac.
Qed.

Lemma notas_ids_NoDup db ini fim :
  NoDup (map n_ColaboradorId (notas (num := num) db ini fim)).
Proof.
  rewrite notas_eq, map_map. cbn. rewrite map_id. apply NoDup_nodup.
Qed.

Lemma nota_media_None db ini fim x :
  (forall ac, In ac (avaliacoes_no_periodo db ini fim) -> ac_ColaboradorId ac <> x) ->
  nota_media (num := num) db ini fim x = None.
Proof.
  intros H. unfold nota_media.
  destruct (filter (fun ac => ac_ColaboradorId ac =? x) (avaliacoes_no_periodo db ini fim))
    as [|ac t] eqn:E; [reflexivity|].
  assert (In ac (filter (fun ac => ac_ColaboradorId ac =? x)
                        (avaliacoes_no_periodo db ini fim))) as Hin
      by (rewrite E; now left).
  apply filter_In in Hin as (Hin & Hx). apply Z.eqb_eq in Hx.
  now destruct (H ac Hin).
Qed.

(** What a row of the FROM clause is made of; its score is [nota_media] of
    the assigned collaborator. *)
Lemma in_resumo_from db ini fim (j : Juncao (num := num)) :
  In j (resumo_from db ini fim) ->
  In (j_c j) (tb_Contratos db) /\ In (j_e j) (tb_Empresas db)
  /\ In (j_pec j) (tb_ProjetoEmpresaColaboradores db)
  /\ e_Id (j_e j) = c_EmpresaId (j_c j) /\ c_IsAtivo (j_c j) = true
  /\ pec_ContratoId (j_pec j) = c_Id (j_c j) /\ pec_Ativo (j_pec j) = true
  /\ j_NotaMedia j = nota_media db ini fim (pec_ColaboradorId (j_pec j)).
Proof.
  destruct j as [[[c e] pec] n]. unfold resumo_from, j_c, j_e, j_pec, j_NotaMedia.
  cbn [fst snd]. intros H. apply in_LEFT_JOIN in H as (H & Hn).
  unfold atribuicoes, contratos_empresas in H.
  rewrite !in_JOIN in H. cbn [fst snd] in H, Hn.
  rewrite !andb_true_iff, !Z.eqb_eq in H.
  repeat (split; [tauto|]).
  destruct n as [n|].
  - destruct Hn as (Hn & E). apply in_notas in Hn as (_ & ->). apply Z.eqb_eq in E.
    now rewrite E.
  - symmetry. apply nota_media_None. intros ac Hac E.
    specialize (Hn (mkNotas (ac_ColaboradorId ac)
                            (nota_media db ini fim (ac_ColaboradorId ac)))).
    cbn in Hn. rewrite E, Z.eqb_refl in Hn. enough (true = false) by discriminate.
    apply Hn. apply in_notas. cbn. split; [now exists ac | reflexivity].
Qed.

Lemma resumo_from_complete db ini fim c e pec :
  In c (tb_Contratos db) -> In e (tb_Empresas db) ->
  In pec (tb_ProjetoEmpresaColaboradores db) ->
  e_Id e = c_EmpresaId c -> c_IsAtivo c = true ->
  pec_ContratoId pec = c_Id c -> pec_Ativo pec = true ->
  exists n, In (c, e, pec, n) (resumo_from (num := num) db ini fim).
Proof.
  intros Hc He Hp E1 E2 E3 E4.
  assert (In (c, e, pec) (atribuicoes db)) as Hj.
  { unfold atribuicoes, contratos_empresas.
    rewrite !in_JOIN. cbn. rewrite !andb_true_iff, !Z.eqb_eq. tauto. }
  unfold resumo_from.
  destruct (filter (fun n => n_ColaboradorId n =? pec_ColaboradorId pec)
                   (notas db ini fim)) as [|n t] eqn:En.
  - exists None. apply in_LEFT_JOIN. split; [exact Hj|]. cbn.
    intros n Hn. destruct (n_ColaboradorId n =? pec_ColaboradorId pec) eqn:E; [|reflexivity].
    assert (In n (filter (fun n => n_ColaboradorId n =? pec_ColaboradorId pec)
                         (notas db ini fim))) as Hin by (apply filter_In; tauto).
    rewrite En in Hin. destruct Hin.
  - exists (Some n). apply in_LEFT_JOIN. split; [exact Hj|]. cbn.
    assert (In n (filter (fun n => n_ColaboradorId n =? pec_ColaboradorId pec)
                         (notas db ini fim))) as Hin by (rewrite En; now left).
    apply filter_In in Hin. exact Hin.
Qed.

Lemma resumo_select_fields (limiar : num) (k : ResumoKey) (g : list Juncao) :
  ContratoId (resumo_select limiar (k, g)) = fst (fst k)
  /\ Cliente (resumo_select limiar (k, g)) = snd (fst k)
  /\ Projeto (resumo_select limiar (k, g)) = snd k
  /\ Colaboradores (resumo_select limiar (k, g))
     = COUNT_DISTINCT (map (fun j => pec_ColaboradorId (j_pec j)) g)
  /\ PiorNota (resumo_select limiar (k, g)) = MIN (map j_NotaMedia g)
  /\ NotaMedia (resumo_select limiar (k, g)) = AVG (map j_NotaMedia g)
  /\ ColabsRuins (resumo_select limiar (k, g))
     = SUM_int (map (fun j => ruim limiar (j_NotaMedia j)) g).
Proof. destruct k as [[id nome] objeto]. cbn. tauto. Qed.

Lemma COUNT_DISTINCT_pos (l : list Z) : l <> [] -> 1 <= COUNT_DISTINCT l.
Proof.
  destruct l as [|x t]; [congruence|]. intros _. unfold COUNT_DISTINCT.
  assert (In x (nodup Z.eq_dec (x :: t))) as H by (apply nodup_In; now left).
  destruct (nodup Z.eq_dec (x :: t)); [destruct H|]. cbn [List.length]. lia.
Qed.

Lemma SUM_int_zero (l : list Z) : (forall x, In x l -> x = 0) -> SUM_int l = 0.
Proof.
  induction l as [|x t IH]; intros H; [reflexivity|].
  change (SUM_int (x :: t)) with (x + SUM_int t).
  rewrite (H x (or_introl eq_refl)), IH; [reflexivity|].
  intros y Hy. apply H. now right.
Qed.

(** A group whose collaborators have no score in the window gives NULL, NULL, 0. *)
Lemma resumo_select_sem_nota (limiar : num) k (g : list Juncao) :
  g <> [] -> (forall j, In j g -> j_NotaMedia j = None) ->
  linha_sem_avaliacao (resumo_select limiar (k, g)).
Proof.
  intros Hg Hnone. unfold linha_sem_avaliacao.
  destruct (resumo_select_fields limiar k g) as (_ & _ & _ & -> & -> & -> & ->).
  assert (non_null (map j_NotaMedia g) = []) as E.
  { apply non_null_all_None. intros v Hv.
    apply in_map_iff in Hv as (j & <- & Hj). now apply Hnone. }
  repeat split.
  - unfold MIN. now rewrite E.
  - now apply AVG_nil_iff.
  - apply SUM_int_zero. intros x Hx. apply in_map_iff in Hx as (j & <- & Hj).
    now rewrite (Hnone j Hj).
  - apply COUNT_DISTINCT_pos. destruct g; [congruence | discriminate].
Qed.

(** C5, amended: an active contract whose client is a row of [Empresas],
    with an active assignment and no evaluation of its actively assigned
    collaborators in the window, has a row in [SQL_RESUMO]; every row of that
    contract has [PiorNota] and [NotaMedia] NULL, [ColabsRuins = 0] and
    [Colaboradores >= 1]. *)
Theorem resumo_sem_avaliacao (db : Banco) (ini fim : date) (limiar : num) (c : Contrato) :
  In c (tb_Contratos db) -> c_IsAtivo c = true ->
  tem_empresa db c -> tem_colaborador_ativo db c ->
  sem_avaliacao_no_periodo db ini fim c ->
  (exists r, In r (SQL_RESUMO db ini fim limiar)
             /\ ContratoId r = c_Id c /\ Projeto r = c_Objeto c)
  /\ (forall r, In r (SQL_RESUMO db ini fim limiar) -> ContratoId r = c_Id c ->
                linha_sem_avaliacao r).
Proof.
  intros Hc Hat (e & He & Ee) (pec & Hp & Ep & Hpa) Hsem. split.
  - destruct (resumo_from_complete db ini fim c e pec) as (n & Hj); try assumption.
    exists (resumo_select limiar
              (resumo_key (c, e, pec, n),
               filter (same_key ResumoKey_dec resumo_key (resumo_key (c, e, pec, n)))
                      (resumo_from db ini fim))).
    split; [|split; reflexivity].
    apply in_SQL_RESUMO. do 2 eexists. split; [|reflexivity].
    apply in_GROUP_BY. split; [|reflexivity]. now exists (c, e, pec, n).
  - intros r Hr Hid. apply in_SQL_RESUMO in Hr as (k & g & Hg & ->).
    destruct (resumo_select_fields limiar k g) as (Ek & _). rewrite Ek in Hid.
    apply GROUP_BY_rows in Hg as (Hne & Hrows).
    apply resumo_select_sem_nota; [exact Hne|].
    intros j Hj. apply Hrows in Hj as (Hj & Hk).
    apply in_resumo_from in Hj as (_ & _ & Hjp & _ & _ & Ejc & Hja & ->).
    apply nota_media_None. intros ac Hac Eac.
    apply in_avaliacoes_no_periodo in Hac as (Hac & Hper).
    apply (Hsem (j_pec j) ac); try assumption.
    rewrite Ejc, <- Hid, <- Hk. reflexivity.
Qed.
End ResumoFacts.

(** C5 as stated fails: an active contract with an active assignment and no
    evaluation, whose client reference matches no row of [Empresas], has no
    row in [SQL_RESUMO]; the inner join on [Empresas] drops it. *)
Lemma resumo_sem_empresa_counterexample :
  In (mkContrato 1 99 "Portal" true) (tb_Contratos db_sem_empresa)
  /\ c_IsAtivo (mkContrato 1 99 "Portal" true) = true
  /\ tem_colaborador_ativo db_sem_empresa (mkContrato 1 99 "Portal" true)
  /\ sem_avaliacao_no_periodo db_sem_empresa fev_ini fev_fim (mkContrato 1 99 "Portal" true)
  /\ ~ exists r, In r (SQL_RESUMO db_sem_empresa fev_ini fev_fim 3.0%Q)
                 /\ ContratoId r = 1 /\ linha_sem_avaliacao r.
Proof.
  split; [now left|]. split; [reflexivity|]. split; [|split].
  - exists (mkPec 1 100 true). cbn. tauto.
  - intros pec ac _ _ _ [].
  - intros (r & [] & _).
Qed.

Lemma resumo_sem_avaliacao_witness :
  linha_sem_avaliacao (mkResumo (num := Q) 1 "Acme" "Portal" 1 None None 0).
Proof.
  refine (proj2 (resumo_sem_avaliacao db_sem_notas fev_ini fev_fim 3.0%Q
                   (mkContrato 1 10 "Portal" true) _ eq_refl _ _ _)
                _ (or_introl eq_refl) eq_refl).
  - now left.
  - exists (mkEmpresa 10 "Acme"). split; [now left | reflexivity].
  - exists (mkPec 1 100 true). split; [now left | split; reflexivity].
  - intros pec ac _ _ _ [<-|[]] _ [H _]. discriminate H.
Defined.

(** ** PiorNota and NotaMedia *)

(** C8 as stated fails in the arithmetic of the source: in binary64, seven
    collaborators whose averages are all [10 / 3.0] have a [NotaMedia] below
    their [PiorNota]; the sum of the seven, rounded at each step, divided by
    7 is one unit in the last place under [10 / 3.0]. *)
Lemma resumo_media_abaixo_da_pior_binary64 :
  exists (r : ResumoRow PrimFloat.float) (w m : PrimFloat.float),
    In r (SQL_RESUMO db_sete fev_ini fev_fim (decimal 30 1))
    /\ PiorNota r = Some w /\ NotaMedia r = Some m
    /\ w = num_div (num_of_int 10) (num_of_int 3)
    /\ PrimFloat.ltb m w = true /\ PrimFloat.leb w m = false.
Proof.
  do 3 eexists. split; [left; reflexivity|]. cbn [PiorNota NotaMedia].
  repeat split; reflexivity.
Qed.

(** C8, amended: in exact arithmetic, in every row of [SQL_RESUMO] where
    [PiorNota] and [NotaMedia] are both present, [PiorNota <= NotaMedia]. *)
Theorem resumo_pior_le_media (db : Banco) (d_ini d_fim : date) (limiar : Q)
        (r : ResumoRow Q) (w m : Q) :
  In r (SQL_RESUMO db d_ini d_fim limiar) ->
  PiorNota r = Some w -> NotaMedia r = Some m -> (w <= m)%Q.
Proof.
  intros Hr Hw Hm. apply in_SQL_RESUMO in Hr as (k & g & _ & ->).
  destruct k as [[id nome] objeto]. cbn in Hw, Hm.
  eapply MIN_le_AVG; eassumption.
Qed.

Lemma resumo_pior_le_media_witness :
  exists r w m,
    In r (SQL_RESUMO db_equipe fev_ini fev_fim 3.0%Q)
    /\ PiorNota r = Some w /\ NotaMedia r = Some m
    /\ (w == 2)%Q /\ (m == 3)%Q /\ (w <= m)%Q.
Proof.
  do 3 eexists. split; [left; reflexivity|].
  split; [reflexivity|]. split; [reflexivity|].
  split; [reflexivity|]. split; [reflexivity|].
  apply (resumo_pior_le_media db_equipe fev_ini fev_fim 3.0%Q
           (mkResumo 1 "Acme" "Portal" 2 (Some (6 # 3)) (Some (54 # 18)) 1)).
  - left. reflexivity.
  - reflexivity.
  - reflexivity.
Defined.


(** ** The scores of [SQL_RESUMO] do not look at the contract of an evaluation *)

Lemma avaliacoes_no_periodo_com_contratos f db ini fim :
  avaliacoes_no_periodo (com_contratos f db) ini fim
  = map (com_contrato f) (avaliacoes_no_periodo db ini fim).
Proof.
  unfold avaliacoes_no_periodo, com_contratos. cbn [tb_AvaliacaoColaboradores].
  now rewrite filter_map_swap.
Qed.

Lemma nota_media_com_contratos {num : Type} {ar : Arit num} f db ini fim x :
  nota_media (num := num) (com_contratos f db) ini fim x = nota_media db ini fim x.
Proof.
  unfold nota_media. rewrite avaliacoes_no_periodo_com_contratos.
  rewrite filter_map_swap, map_map. reflexivity.
Qed.

Lemma notas_com_contratos {num : Type} {ar : Arit num} f db ini fim :
  notas (num := num) (com_contratos f db) ini fim = notas db ini fim.
Proof.
  rewrite !notas_eq, avaliacoes_no_periodo_com_contratos, map_map. cbn [com_contrato ac_ColaboradorId].
  apply map_ext. intros x. now rewrite nota_media_com_contratos.
Qed.

Lemma filter_filter_and {A : Type} (f g : A -> bool) (l : list A) :
  filter f (filter g l) = filter (fun a => f a && g a) l.
Proof.
  induction l as [|a t IH]; [reflexivity|]. cbn.
  destruct (g a); cbn; [|now rewrite andb_false_r].
  rewrite andb_true_r. destruct (f a); now rewrite IH.
Qed.

Lemma avaliacoes_do_colaborador_eq db ini fim x :
  avaliacoes_do_colaborador db ini fim x
  = filter (fun ac => ac_ColaboradorId ac =? x) (avaliacoes_no_periodo db ini fim).
Proof.
  unfold avaliacoes_do_colaborador, avaliacoes_no_periodo. rewrite filter_filter_and.
  apply filter_ext. intros ac. unfold BETWEEN. now rewrite andb_assoc.
Qed.

Lemma in_avaliacoes_do_colaborador db ini fim x ac :
  In ac (avaliacoes_do_colaborador db ini fim x) <->
  In ac (tb_AvaliacaoColaboradores db) /\ ac_ColaboradorId ac = x
  /\ no_periodo (ac_Periodo ac) ini fim.
Proof.
  rewrite avaliacoes_do_colaborador_eq, filter_In, in_avaliacoes_no_periodo, Z.eqb_eq.
  tauto.
Qed.

Lemma non_null_map_Some {A B : Type} (f : A -> B) (l : list A) :
  non_null (map (fun a => Some (f a)) l) = map f l.
Proof. induction l as [|a t IH]; cbn; [reflexivity|]. now rewrite IH. Qed.

Lemma nota_media_exata db ini fim x :
  nota_eq (nota_media (num := Q) db ini fim x) (nota_do_colaborador db ini fim x).
Proof.
  unfold nota_media, nota_do_colaborador. rewrite <- avaliacoes_do_colaborador_eq.
  destruct (avaliacoes_do_colaborador db ini fim x) as [|a t] eqn:E; [exact I|].
  rewrite <- E.
  set (evs := avaliacoes_do_colaborador db ini fim x) in *.
  destruct (AVG (map (fun ac => Some (nota ac)) evs)) as [m|] eqn:Em.
  - apply AVG_spec in Em as (_ & Em). rewrite non_null_map_Some in Em.
    cbn [nota_eq]. rewrite Em.
    destruct evs; reflexivity.
  - exfalso. apply AVG_nil_iff in Em. rewrite non_null_map_Some, E in Em.
    discriminate.
Qed.

(** C6: in exact arithmetic, the CTE [notas] has one row for each
    collaborator with an evaluation dated in the window, and its score is
    the mean, over all the evaluations of the collaborator dated in the
    window, whatever contract they are recorded against, of the mean of the
    three marks; that score is the one every joined row of [SQL_RESUMO]
    carries for its collaborator. In any arithmetic [notas] and
    [SQL_RESUMO] are the same whatever contract each evaluation is recorded
    against. In [db_exemplo] every evaluation is recorded against contract
    2, yet the row of contract 1 has [PiorNota = NotaMedia = 2] and
    [ColabsRuins = 1]; without that evaluation the three are NULL, NULL and
    0; and [SQL_DETALHES] of contract 1, which reads [ac.ContratoId],
    returns nothing. In [db_varias] the row of contract 1 has the score 3,
    the mean of 2 and 4, of which 4 is recorded against contract 2 and the 5
    of March is left out, and [SQL_DETALHES] of contract 1 has the one row
    of score 2. *)
Theorem notas_ignore_contract :
  (forall db ini fim,
      NoDup (map n_ColaboradorId (notas (num := Q) db ini fim))
      /\ (forall x, (exists n, In n (notas (num := Q) db ini fim) /\ n_ColaboradorId n = x)
                    <-> avaliacoes_do_colaborador db ini fim x <> [])
      /\ (forall n, In n (notas (num := Q) db ini fim) ->
                    nota_eq (n_NotaMedia n)
                            (nota_do_colaborador db ini fim (n_ColaboradorId n)))
      /\ (forall j, In j (resumo_from (num := Q) db ini fim) ->
                    nota_eq (j_NotaMedia j)
                            (nota_do_colaborador db ini fim
                                                 (pec_ColaboradorId (j_pec j)))))
  /\ (forall (num : Type) (ar : Arit num) f db ini fim,
      notas (num := num) (com_contratos f db) ini fim = notas db ini fim
      /\ forall limiar : num,
          SQL_RESUMO (com_contratos f db) ini fim limiar = SQL_RESUMO db ini fim limiar)
  /\ (forall ac, In ac (tb_AvaliacaoColaboradores db_exemplo) -> ac_ContratoId ac = 2)
  /\ (exists r, In r (SQL_RESUMO db_exemplo fev_ini fev_fim 3.0%Q)
                /\ ContratoId r = 1
                /\ nota_eq (PiorNota r) (Some 2%Q) /\ nota_eq (NotaMedia r) (Some 2%Q)
                /\ ColabsRuins r = 1)
  /\ (forall r, In r (SQL_RESUMO (sem_avaliacoes db_exemplo) fev_ini fev_fim 3.0%Q) ->
                ContratoId r = 1 ->
                PiorNota r = None /\ NotaMedia r = None /\ ColabsRuins r = 0)
  /\ SQL_DETALHES (num := Q) db_exemplo 1 fev_ini fev_fim = []
  /\ (exists r, SQL_RESUMO db_varias fev_ini fev_fim 3.0%Q = [r]
                /\ ContratoId r = 1
                /\ nota_eq (PiorNota r) (Some 3%Q) /\ nota_eq (NotaMedia r) (Some 3%Q)
                /\ ColabsRuins r = 0)
  /\ (exists d, SQL_DETALHES (num := Q) db_varias 1 fev_ini fev_fim = [d]
                /\ Periodo d = mkdate 2024 2 5 /\ (Nota d == 2)%Q).
Proof.
  split; [|split; [|split; [|split; [|split; [|split; [|split]]]]]].
  - intros db ini fim. split; [apply notas_ids_NoDup|]. split; [|split].
    + intros x. split.
      * intros (n & Hn & <-). apply in_notas in Hn as ((ac & Hac & E) & _).
        apply in_avaliacoes_no_periodo in Hac as (Hin & Hp).
        intros Hnil.
        assert (In ac (avaliacoes_do_colaborador db ini fim (n_ColaboradorId n))) as H
            by (apply in_avaliacoes_do_colaborador; tauto).
        rewrite Hnil in H. destruct H.
      * intros Hne.
        destruct (avaliacoes_do_colaborador db ini fim x) as [|ac t] eqn:E; [congruence|].
        assert (In ac (avaliacoes_do_colaborador db ini fim x)) as H
            by (rewrite E; now left).
        apply in_avaliacoes_do_colaborador in H as (Hin & Hx & Hp).
        exists (mkNotas x (nota_media db ini fim x)). split; [|reflexivity].
        apply in_notas. cbn [n_ColaboradorId n_NotaMedia]. split; [|reflexivity].
        exists ac. split; [|assumption]. apply in_avaliacoes_no_periodo. tauto.
    + intros n Hn. apply in_notas in Hn as (_ & ->). apply nota_media_exata.
    + intros j Hj. apply in_resumo_from in Hj as (_ & _ & _ & _ & _ & _ & _ & ->).
      apply nota_media_exata.
  - intros num ar f db ini fim. split; [apply notas_com_contratos|].
    intros limiar. unfold SQL_RESUMO, resumo_from.
    rewrite notas_com_contratos. reflexivity.
  - intros ac [<-|[]]. reflexivity.
  - eexists. split; [left; reflexivity|]. cbn. repeat split; reflexivity.
  - intros r [<-|[<-|[]]] E; cbn in E; try discriminate. cbn. tauto.
  - reflexivity.
  - eexists. split; [reflexivity|]. cbn. repeat split; reflexivity.
  - eexists. split; [reflexivity|]. cbn. split; reflexivity.
Qed.

(** ** The row of one contract *)

Section ListFacts.
Context {A B : Type}.

Lemma filter_flat_map (P : B -> bool) (F : A -> list B) (l : list A) :
  filter P (flat_map F l) = flat_map (fun a => filter P (F a)) l.
Proof.
  induction l as [|a t IH]; cbn; [reflexivity|].
  now rewrite filter_app, IH.
Qed.

Lemma flat_map_ext_in (F G : A -> list B) (l : list A) :
  (forall a, In a l -> F a = G a) -> flat_map F l = flat_map G l.
Proof.
  induction l as [|a t IH]; intros H; cbn; [reflexivity|].
  rewrite (H a (or_introl eq_refl)), IH; [reflexivity|].
  intros b Hb. apply H. now right.
Qed.

Lemma flat_map_if_filter (Q : A -> bool) (F : A -> list B) (l : list A) :
  flat_map (fun a => if Q a then F a else []) l = flat_map F (filter Q l).
Proof.
  induction l as [|a t IH]; cbn; [reflexivity|].
  destruct (Q a); cbn; now rewrite IH.
Qed.

Lemma filter_map_pair (P : A -> bool) (a : A) (l : list B) :
  filter (fun y => P (fst y)) (map (pair a) l) = if P a then map (pair a) l else [].
Proof.
  induction l as [|b t IH]; cbn.
  - now destruct (P a).
  - rewrite IH. now destruct (P a).
Qed.

Lemma filter_none (P : A -> bool) (l : list A) :
  (forall a, In a l -> P a = false) -> filter P l = [].
Proof.
  induction l as [|a t IH]; intros H; cbn; [reflexivity|].
  rewrite (H a (or_introl eq_refl)). apply IH. intros b Hb. apply H. now right.
Qed.

Lemma map_fst_filter (P : A -> bool) (l : list (A * B)) :
  map fst (filter (fun y => P (fst y)) l) = filter P (map fst l).
Proof.
  induction l as [|y t IH]; cbn; [reflexivity|].
  destruct (P (fst y)); cbn; now rewrite IH.
Qed.
End ListFacts.

(** The LEFT JOIN on [notas] keeps the rows of its left side, one for one:
    [notas] has one row per collaborator. *)
Lemma filter_key_le_one {A : Type} (key : A -> Z) (l : list A) x :
  NoDup (map key l) ->
  filter (fun a => key a =? x) l = [] \/ exists a, filter (fun a => key a =? x) l = [a].
Proof.
  induction l as [|a t IH]; cbn; intros H; [now left|].
  inversion H as [|? ? Hnin Hnd]; subst.
  destruct (Z.eqb_spec (key a) x) as [E|E].
  - right. exists a. f_equal.
    destruct (filter (fun a => key a =? x) t) as [|b t'] eqn:Ef; [reflexivity|].
    exfalso. apply Hnin.
    assert (In b (filter (fun a => key a =? x) t)) as Hb by (rewrite Ef; now left).
    apply filter_In in Hb as (Hb & Eb). apply Z.eqb_eq in Eb.
    rewrite E, <- Eb. now apply in_map.
  - now apply IH.
Qed.

Lemma map_fst_LEFT_JOIN {A B : Type} (key : B -> Z) (ref : A -> Z) (l : list A) (r : list B) :
  NoDup (map key r) ->
  map fst (LEFT_JOIN (fun a b => key b =? ref a) l r) = l.
Proof.
  intros Hnd. unfold LEFT_JOIN. induction l as [|a t IH]; [reflexivity|].
  cbn [flat_map]. rewrite map_app, IH.
  change (a :: t) with ([a] ++ t). f_equal.
  destruct (filter_key_le_one key r (ref a) Hnd) as [-> | (b & ->)]; reflexivity.
Qed.

Lemma map_fst_resumo_from {num : Type} {ar : Arit num} db ini fim :
  map fst (resumo_from (num := num) db ini fim) = atribuicoes db.
Proof.
  exact (map_fst_LEFT_JOIN n_ColaboradorId
           (fun x : Contrato * Empresa * ProjetoEmpresaColaborador =>
              pec_ColaboradorId (snd x))
           (atribuicoes db) (notas db ini fim) (notas_ids_NoDup db ini fim)).
Qed.

Section UmContrato.
Context {num : Type} {ar : Arit num}.
Variables (db : Banco) (ini fim : date) (limiar : num) (c : Contrato) (e : Empresa).
Hypothesis Hc : contrato_unico db c.
Hypothesis He : empresa_unica db c e.
Hypothesis Hat : c_IsAtivo c = true.

Let k : ResumoKey := chave (c, e).

Lemma contrato_unico_In : In c (tb_Contratos db).
Proof.
  assert (In c (filter (fun c' => c_Id c' =? c_Id c) (tb_Contratos db))) as H
      by (rewrite Hc; now left).
  now apply filter_In in H.
Qed.

Lemma empresa_unica_In : In e (tb_Empresas db) /\ e_Id e = c_EmpresaId c.
Proof.
  assert (In e (filter (fun e' => e_Id e' =? c_EmpresaId c) (tb_Empresas db))) as H
      by (rewrite He; now left).
  apply filter_In in H as (H & E). now apply Z.eqb_eq in E.
Qed.

Lemma contrato_unico_eq c' : In c' (tb_Contratos db) -> c_Id c' = c_Id c -> c' = c.
Proof.
  intros Hin E.
  assert (In c' (filter (fun c' => c_Id c' =? c_Id c) (tb_Contratos db))) as H
      by (apply filter_In; split; [assumption | now apply Z.eqb_eq]).
  rewrite Hc in H. destruct H as [H|[]]. now symmetry.
Qed.

Lemma empresa_unica_eq e' : In e' (tb_Empresas db) -> e_Id e' = c_EmpresaId c -> e' = e.
Proof.
  intros Hin E.
  assert (In e' (filter (fun e' => e_Id e' =? c_EmpresaId c) (tb_Empresas db))) as H
      by (apply filter_In; split; [assumption | now apply Z.eqb_eq]).
  rewrite He in H. destruct H as [H|[]]. now symmetry.
Qed.

(** The contract and its client make one row of the first join with key [k]. *)
Lemma contratos_empresas_grupo :
  filter (same_key ResumoKey_dec chave k) (contratos_empresas db) = [(c, e)].
Proof.
  unfold contratos_empresas, JOIN. rewrite filter_flat_map.
  rewrite (flat_map_ext_in _
             (fun c' => if c_Id c' =? c_Id c then [(c, e)] else [])).
  - rewrite flat_map_if_filter. unfold contrato_unico in Hc. rewrite Hc. reflexivity.
  - intros c' Hc'. destruct (Z.eqb_spec (c_Id c') (c_Id c)) as [E|E].
    + rewrite (contrato_unico_eq c' Hc' E).
      rewrite (filter_ext (fun e' => (e_Id e' =? c_EmpresaId c) && c_IsAtivo c)
                          (fun e' => e_Id e' =? c_EmpresaId c))
        by (intros e'; rewrite Hat; apply andb_true_r).
      unfold empresa_unica in He. rewrite He. cbn [map filter].
      replace (same_key ResumoKey_dec chave k (c, e)) with true; [reflexivity|].
      symmetry. now apply same_key_true.
    + apply filter_none. intros y Hy.
      apply in_map_iff in Hy as (e' & <- & _).
      destruct (same_key ResumoKey_dec chave k (c', e')) eqn:Ek; [|reflexivity].
      apply same_key_true in Ek. unfold k, chave in Ek. cbn in Ek. congruence.
Qed.

(** The rows of the second join with key [k] are the active assignments of [c]. *)
Lemma atribuicoes_grupo :
  filter (fun y => same_key ResumoKey_dec chave k (fst y)) (atribuicoes db)
  = map (pair (c, e)) (ativos db (c_Id c)).
Proof.
  unfold atribuicoes, JOIN. rewrite filter_flat_map.
  rewrite (flat_map_ext _
             (fun x => if same_key ResumoKey_dec chave k x
                       then map (pair x)
                                (filter (fun pec => (pec_ContratoId pec =? c_Id (fst x))
                                                    && pec_Ativo pec)
                                        (tb_ProjetoEmpresaColaboradores db))
                       else []))
    by (intros x; apply filter_map_pair).
  rewrite flat_map_if_filter, contratos_empresas_grupo. cbn [flat_map fst].
  now rewrite app_nil_r.
Qed.

(** The group of [SQL_RESUMO] with key [k], column by column. *)
Lemma resumo_grupo_colunas :
  let g := filter (same_key ResumoKey_dec resumo_key k)
                  (resumo_from (num := num) db ini fim) in
  map (fun j => pec_ColaboradorId (j_pec j)) g = colaboradores_ativos db (c_Id c)
  /\ map j_NotaMedia g
     = map (nota_media db ini fim) (colaboradores_ativos db (c_Id c)).
Proof.
  intros g.
  assert (map fst g = map (pair (c, e)) (ativos db (c_Id c))) as Eg.
  { rewrite <- atribuicoes_grupo, <- (map_fst_resumo_from db ini fim).
    exact (map_fst_filter (fun y => same_key ResumoKey_dec chave k (fst y))
                          (resumo_from db ini fim)). }
  assert (map (fun j => pec_ColaboradorId (j_pec j)) g
          = colaboradores_ativos db (c_Id c)) as Ex.
  { unfold colaboradores_ativos.
    transitivity (map (fun y : Contrato * Empresa * ProjetoEmpresaColaborador =>
                         pec_ColaboradorId (snd y)) (map fst g)).
    - symmetry. exact (map_map fst _ g).
    - rewrite Eg. apply map_map. }
  split; [exact Ex|].
  rewrite <- Ex, map_map. apply map_ext_in. intros j Hj.
  apply filter_In in Hj as (Hj & _). now apply in_resumo_from in Hj.
Qed.

Lemma resumo_select_grupo :
  resumo_select limiar
    (k, filter (same_key ResumoKey_dec resumo_key k) (resumo_from db ini fim))
  = resumo_do_contrato db ini fim limiar c e.
Proof.
  destruct resumo_grupo_colunas as (Ex & En).
  unfold k, chave in Ex, En. cbn [fst snd] in Ex, En.
  unfold resumo_select, resumo_do_contrato, k, chave. cbn [fst snd].
  rewrite Ex, En. do 2 f_equal.
  transitivity (map (ruim limiar) (map j_NotaMedia
     (filter (same_key ResumoKey_dec resumo_key (c_Id c, e_Nome e, c_Objeto c))
             (resumo_from db ini fim)))).
  - symmetry. apply map_map.
  - rewrite En. apply map_map.
Qed.

(** With the two keys, contract [c] has at most one row, [resumo_do_contrato];
    it has that row when it has an active assignment. *)
Lemma resumo_contrato_unico (r : ResumoRow num) :
  In r (SQL_RESUMO db ini fim limiar) -> ContratoId r = c_Id c ->
  r = resumo_do_contrato db ini fim limiar c e.
Proof.
  intros Hr Hid. apply in_SQL_RESUMO in Hr as (k' & g & Hg & ->).
  destruct (resumo_select_fields limiar k' g) as (Ek & _). rewrite Ek in Hid.
  apply in_GROUP_BY in Hg as ((j & Hj & Hk) & ->).
  apply in_resumo_from in Hj as (Hjc & Hje & _ & Ee & _).
  assert (c_Id (j_c j) = c_Id c) as Ec by (rewrite <- Hid, <- Hk; reflexivity).
  pose proof (contrato_unico_eq _ Hjc Ec) as Ejc.
  rewrite Ejc in Ee. pose proof (empresa_unica_eq _ Hje Ee) as Eje.
  assert (k' = k) as -> by (rewrite <- Hk; unfold resumo_key; now rewrite Ejc, Eje).
  apply resumo_select_grupo.
Qed.

Lemma resumo_contrato_presente :
  ativos db (c_Id c) <> [] ->
  In (resumo_do_contrato db ini fim limiar c e) (SQL_RESUMO db ini fim limiar).
Proof.
  intros Hne. destruct (ativos db (c_Id c)) as [|pec t] eqn:Ea; [congruence|].
  assert (In pec (ativos db (c_Id c))) as Hp by (rewrite Ea; now left).
  apply filter_In in Hp as (Hp & Hon). apply andb_true_iff in Hon as (E1 & E2).
  apply Z.eqb_eq in E1. destruct empresa_unica_In as (Hein & Ee).
  destruct (resumo_from_complete db ini fim c e pec) as (n & Hj);
    try assumption; [apply contrato_unico_In|].
  rewrite <- resumo_select_grupo. apply in_SQL_RESUMO.
  do 2 eexists. split; [|reflexivity].
  apply in_GROUP_BY. split; [|reflexivity]. now exists (c, e, pec, n).
Qed.
End UmContrato.

(** ** Aggregates do not depend on the order of the rows *)

Lemma perm_repeat_remove (x : Z) (xs : list Z) :
  Permutation xs (repeat x (count_occ Z.eq_dec xs x) ++ remove Z.eq_dec x xs).
Proof.
  induction xs as [|y t IH]; cbn [count_occ remove].
  - constructor.
  - destruct (Z.eq_dec y x) as [->|E].
    + destruct (Z.eq_dec x x) as [_|N]; [|congruence]. cbn. now constructor.
    + destruct (Z.eq_dec x y) as [->|_]; [congruence|].
      now apply Permutation_cons_app.
Qed.

Lemma COUNT_DISTINCT_split (x : Z) (xs : list Z) :
  In x xs -> COUNT_DISTINCT xs = 1 + COUNT_DISTINCT (remove Z.eq_dec x xs).
Proof.
  intros Hx. unfold COUNT_DISTINCT.
  assert (Permutation (nodup Z.eq_dec xs) (x :: nodup Z.eq_dec (remove Z.eq_dec x xs))) as H.
  { apply NoDup_Permutation.
    - apply NoDup_nodup.
    - constructor; [|apply NoDup_nodup].
      rewrite nodup_In. apply remove_In.
    - intros y. rewrite nodup_In. cbn. rewrite nodup_In. split.
      + intros Hy. destruct (Z.eq_dec x y) as [->|E]; [now left|].
        right. apply in_in_remove; congruence.
      + intros [<-|Hy]; [assumption|]. now apply in_remove in Hy. }
  rewrite (Permutation_length H). cbn [List.length]. lia.
Qed.

Lemma SUM_int_app (l l' : list Z) : SUM_int (l ++ l') = SUM_int l + SUM_int l'.
Proof.
  unfold SUM_int. induction l as [|x t IH]; cbn; [reflexivity|]. rewrite IH. lia.
Qed.

Lemma SUM_int_repeat (v : Z) (k : nat) : SUM_int (repeat v k) = Z.of_nat k * v.
Proof.
  unfold SUM_int. induction k as [|k IH]; [reflexivity|].
  cbn [repeat fold_right]. rewrite IH. lia.
Qed.

Lemma SUM_int_perm (l l' : list Z) : Permutation l l' -> SUM_int l = SUM_int l'.
Proof.
  unfold SUM_int. induction 1; cbn; lia.
Qed.

Lemma non_null_app {A : Type} (l l' : list (option A)) :
  non_null (l ++ l') = non_null l ++ non_null l'.
Proof.
  induction l as [|[a|] t IH]; cbn; [reflexivity| |assumption]. now rewrite IH.
Qed.

Lemma non_null_repeat_Some {A : Type} (a : A) (k : nat) :
  non_null (repeat (Some a) k) = repeat a k.
Proof.
  induction k as [|k IH]; cbn; [reflexivity|]. now rewrite IH.
Qed.

Lemma non_null_perm {A : Type} (l l' : list (option A)) :
  Permutation l l' -> Permutation (non_null l) (non_null l').
Proof.
  induction 1 as [|x l l' H IH|x y l|l l' l'' H1 IH1 H2 IH2].
  - constructor.
  - destruct x; cbn; [now constructor | assumption].
  - destruct x, y; cbn; try reflexivity. apply perm_swap.
  - now transitivity (non_null l').
Qed.

Lemma in_non_null {A : Type} (l : list (option A)) a :
  In a (non_null l) <-> In (Some a) l.
Proof.
  induction l as [|[b|] t IH]; cbn; [tauto| |].
  - rewrite IH. split; intros [H|H]; auto; left; congruence.
  - rewrite IH. split; [auto|]. intros [H|H]; [discriminate|assumption].
Qed.

Lemma Qsum_app (l l' : list Q) : (Qsum (l ++ l') == Qsum l + Qsum l')%Q.
Proof.
  unfold Qsum. induction l as [|x t IH]; cbn [app fold_right]; [lra|].
  rewrite IH. lra.
Qed.

Lemma Qsum_repeat (a : Q) (k : nat) :
  (Qsum (repeat a k) == inject_Z (Z.of_nat k) * a)%Q.
Proof.
  unfold Qsum. induction k as [|k IH].
  - change (0 == 0 * a)%Q. lra.
  - cbn [repeat fold_right]. rewrite IH, Nat2Z.inj_succ, <- Z.add_1_r, inject_Z_plus.
    change (inject_Z 1) with 1%Q. lra.
Qed.

Lemma Qsum_perm (l l' : list Q) : Permutation l l' -> (Qsum l == Qsum l')%Q.
Proof.
  unfold Qsum. induction 1 as [|x l l' H IH|x y l|l l' l'' H1 IH1 H2 IH2];
    cbn [fold_right].
  - reflexivity.
  - now rewrite IH.
  - lra.
  - now rewrite IH1.
Qed.

Lemma AVG_perm (l l' : list (option Q)) :
  Permutation l l' -> nota_eq (AVG l) (AVG l').
Proof.
  intros H. apply non_null_perm in H.
  pose proof (Permutation_length H) as Hlen. pose proof (Qsum_perm _ _ H) as Hsum.
  destruct (AVG l) as [m|] eqn:E, (AVG l') as [m'|] eqn:E'; cbn [nota_eq].
  - apply AVG_spec in E as (_ & ->). apply AVG_spec in E' as (_ & ->).
    now rewrite Hlen, Hsum.
  - apply AVG_spec in E as (Hne & _). apply AVG_nil_iff in E'.
    rewrite E' in H. apply Permutation_sym, Permutation_nil in H. contradiction.
  - apply AVG_spec in E' as (Hne & _). apply AVG_nil_iff in E.
    rewrite E in H. apply Permutation_nil in H. contradiction.
  - exact I.
Qed.

Lemma MIN_None {num : Type} {ar : Arit num} (l : list (option num)) :
  MIN l = None <-> non_null l = [].
Proof.
  unfold MIN. destruct (non_null l); split; congruence.
Qed.

(** [MIN] depends only on which values occur. *)
Lemma MIN_ext (l l' : list (option Q)) :
  (forall x, In x (non_null l) <-> In x (non_null l')) ->
  nota_eq (MIN l) (MIN l').
Proof.
  intros H. destruct (MIN l) as [m|] eqn:E, (MIN l') as [m'|] eqn:E'; cbn.
  - apply MIN_spec in E as (Hin & Hle). apply MIN_spec in E' as (Hin' & Hle').
    apply Qle_antisym; [apply Hle | apply Hle']; now apply H.
  - apply MIN_spec in E as (Hin & _). apply MIN_None in E'.
    apply H in Hin. rewrite E' in Hin. destruct Hin.
  - apply MIN_spec in E' as (Hin & _). apply MIN_None in E.
    apply H in Hin. rewrite E in Hin. destruct Hin.
  - exact I.
Qed.

Lemma nota_eq_trans x y z : nota_eq x y -> nota_eq y z -> nota_eq x z.
Proof.
  destruct x, y, z; cbn; try tauto. intros H1 H2. now rewrite H1.
Qed.

Lemma AVG_repeat_app (a : Q) (k : nat) (l : list (option Q)) :
  (1 <= k)%nat ->
  nota_eq (AVG (repeat (Some a) k ++ l))
          (Some ((inject_Z (Z.of_nat k) * a + Qsum (non_null l))
                 / (inject_Z (Z.of_nat k)
                    + inject_Z (Z.of_nat (List.length (non_null l)))))%Q).
Proof.
  intros Hk. destruct (AVG (repeat (Some a) k ++ l)) as [m|] eqn:E; cbn [nota_eq].
  - apply AVG_spec in E as (_ & ->).
    rewrite non_null_app, non_null_repeat_Some.
    rewrite Qsum_app, Qsum_repeat, length_app, repeat_length.
    rewrite Nat2Z.inj_add, inject_Z_plus. reflexivity.
  - apply AVG_nil_iff in E. rewrite non_null_app, non_null_repeat_Some in E.
    destruct k; [lia | discriminate].
Qed.

Lemma colaboradores_ativos_In db id x :
  In x (colaboradores_ativos db id) -> ativos db id <> [].
Proof.
  unfold colaboradores_ativos. destruct (ativos db id); [intros [] | discriminate].
Qed.

(** ** Repeated assignment rows *)

(** C10: let the contract id and the client id be keys of their tables, and
    let the active assignments of contract [c] hold collaborator [x] in
    [k >= 1] rows.  Then [c] has one row in [SQL_RESUMO], in which [x] is
    counted once in [Colaboradores], its average enters [PiorNota] as one
    value of a minimum, enters [NotaMedia] [k] times, and adds
    [k * ruim limiar] to [ColabsRuins]: [k] when the average is present and
    below [limiar]. *)
Theorem resumo_duplicate_assignment
        (db : Banco) (ini fim : date) (limiar : Q) (c : Contrato) (e : Empresa)
        (x : Z) (k : nat) :
  contrato_unico db c -> empresa_unica db c e -> c_IsAtivo c = true ->
  count_occ Z.eq_dec (colaboradores_ativos db (c_Id c)) x = k -> (1 <= k)%nat ->
  let rest := remove Z.eq_dec x (colaboradores_ativos db (c_Id c)) in
  let nm := nota_media (num := Q) db ini fim in
  exists r,
    In r (SQL_RESUMO db ini fim limiar) /\ ContratoId r = c_Id c
    /\ (forall r', In r' (SQL_RESUMO db ini fim limiar) -> ContratoId r' = c_Id c -> r' = r)
    /\ Colaboradores r = 1 + COUNT_DISTINCT rest
    /\ nota_eq (PiorNota r) (MIN (nm x :: map nm rest))
    /\ nota_eq (NotaMedia r) (AVG (repeat (nm x) k ++ map nm rest))
    /\ ColabsRuins r
       = Z.of_nat k * ruim limiar (nm x) + SUM_int (map (fun y => ruim limiar (nm y)) rest)
    /\ (forall a, nm x = Some a ->
          nota_eq (NotaMedia r)
                  (Some ((inject_Z (Z.of_nat k) * a + Qsum (non_null (map nm rest)))
                         / (inject_Z (Z.of_nat k)
                            + inject_Z (Z.of_nat (List.length (non_null (map nm rest))))))%Q)
          /\ ((a < limiar)%Q ->
              ColabsRuins r
              = Z.of_nat k + SUM_int (map (fun y => ruim limiar (nm y)) rest))).
Proof.
  intros Hc He Hat Hk Hk1 rest nm.
  set (xs := colaboradores_ativos db (c_Id c)) in *.
  assert (In x xs) as Hx by (apply (count_occ_In Z.eq_dec); lia).
  pose proof (perm_repeat_remove x xs) as Hperm. rewrite Hk in Hperm. fold rest in Hperm.
  assert (nota_eq (AVG (map nm xs)) (AVG (repeat (nm x) k ++ map nm rest))) as Havg.
  { apply AVG_perm. rewrite <- (map_repeat x k nm), <- map_app. now apply Permutation_map. }
  assert (SUM_int (map (fun y => ruim limiar (nm y)) xs)
          = Z.of_nat k * ruim limiar (nm x)
            + SUM_int (map (fun y => ruim limiar (nm y)) rest)) as Hsum.
  { rewrite (SUM_int_perm _ _ (Permutation_map (fun y => ruim limiar (nm y)) Hperm)).
    now rewrite map_app, SUM_int_app, map_repeat, SUM_int_repeat. }
  exists (resumo_do_contrato db ini fim limiar c e).
  split; [|split; [reflexivity|split; [|split; [|split; [|split; [|split]]]]]].
  - apply resumo_contrato_presente; try assumption.
    now apply (colaboradores_ativos_In db (c_Id c) x).
  - intros r' Hr' Hid. now apply (resumo_contrato_unico db ini fim limiar c e).
  - cbn. now apply COUNT_DISTINCT_split.
  - cbn. apply MIN_ext. intros a. rewrite !in_non_null. cbn [In].
    rewrite !in_map_iff. split.
    + intros (y & Ey & Hy). destruct (Z.eq_dec y x) as [->|N]; [now left|].
      right. exists y. split; [assumption|]. now apply in_in_remove.
    + intros [Ex|(y & Ey & Hy)]; [now exists x|].
      exists y. split; [assumption|]. apply in_remove in Hy. tauto.
  - exact Havg.
  - exact Hsum.
  - intros a Ea. split.
    + eapply nota_eq_trans; [exact Havg|]. rewrite Ea. now apply AVG_repeat_app.
    + intros Hlt.
      change (ColabsRuins (resumo_do_contrato db ini fim limiar c e))
        with (SUM_int (map (fun y => ruim limiar (nm y)) xs)).
      rewrite Hsum, Ea. cbn [ruim]. exato.
      apply Qltb_lt in Hlt. rewrite Hlt. lia.
Qed.

Lemma resumo_duplicate_assignment_witness :
  exists r,
    In r (SQL_RESUMO db_duplicado fev_ini fev_fim 3.0%Q)
    /\ Colaboradores r = 2
    /\ nota_eq (PiorNota r) (Some 2%Q)
    /\ nota_eq (NotaMedia r) (Some ((2 * 2 + 4) / (2 + 1))%Q)
    /\ ColabsRuins r = 2.
Proof.
  destruct (resumo_duplicate_assignment db_duplicado fev_ini fev_fim 3.0%Q
              (mkContrato 1 10 "Portal" true) (mkEmpresa 10 "Acme") 100 2
              eq_refl eq_refl eq_refl eq_refl (le_S 1 1 (le_n 1)))
    as (r & Hin & _ & _ & Hn & Hmin & _ & _ & Hk).
  exists r. split; [exact Hin|]. split; [rewrite Hn; reflexivity|].
  split; [eapply nota_eq_trans; [exact Hmin | reflexivity]|].
  destruct (Hk (6 # 3)%Q eq_refl) as (Havg & Hbad).
  split; [|rewrite Hbad; reflexivity].
  eapply nota_eq_trans; [exact Havg | reflexivity].
Defined.

(** C7, at an input where it fails: in [db_duplicado] contract 1 has two
    collaborators, of whom one (Ana, average 2) is below the threshold 3;
    Ana is assigned by two rows and [ColabsRuins] is 2. *)
Theorem resumo_colabs_ruins_duplicado :
  exists r,
    SQL_RESUMO db_duplicado fev_ini fev_fim 3.0%Q = [r]
    /\ ContratoId r = 1 /\ Colaboradores r = 2 /\ ColabsRuins r = 2
    /\ colabs_abaixo_do_limiar db_duplicado fev_ini fev_fim 3.0%Q 1 = 1
    /\ nota_eq (nota_media db_duplicado fev_ini fev_fim 100) (Some 2%Q)
    /\ nota_eq (nota_media db_duplicado fev_ini fev_fim 101) (Some 4%Q).
Proof.
  eexists. split; [reflexivity|]. cbn. repeat split; reflexivity.
Qed.

Lemma ruim_0_1 {num : Type} {ar : Arit num} (limiar : num) v :
  ruim limiar v = 0 \/ ruim limiar v = 1.
Proof.
  unfold ruim. destruct v as [x|]; [destruct (num_ltb x limiar)|]; auto.
Qed.

Lemma SUM_int_indicator {A : Type} (ind : A -> Z) (l : list A) :
  (forall x, ind x = 0 \/ ind x = 1) ->
  SUM_int (map ind l) = Z.of_nat (List.length (filter (fun x => ind x =? 1) l)).
Proof.
  intros H. unfold SUM_int. induction l as [|x t IH]; [reflexivity|].
  cbn [map fold_right filter]. rewrite IH.
  destruct (H x) as [E|E]; rewrite E.
  - change (0 =? 1) with false. cbv iota. lia.
  - change (1 =? 1) with true. cbv iota. cbn [List.length]. lia.
Qed.

(** X3: for a contract whose id and whose client id are keys, and without
    repeated assignment rows, [ColabsRuins] is the number of collaborators
    actively assigned to the contract whose average over the window is
    present and below the threshold. *)
Lemma resumo_colabs_ruins_sem_repeticao {num : Type} {ar : Arit num}
      db ini fim (limiar : num) c e (r : ResumoRow num) :
  contrato_unico db c -> empresa_unica db c e -> c_IsAtivo c = true ->
  NoDup (colaboradores_ativos db (c_Id c)) ->
  In r (SQL_RESUMO db ini fim limiar) -> ContratoId r = c_Id c ->
  ColabsRuins r = colabs_abaixo_do_limiar db ini fim limiar (c_Id c).
Proof.
  intros Hc He Hat Hnd Hr Hid.
  rewrite (resumo_contrato_unico db ini fim limiar c e Hc He Hat r Hr Hid).
  unfold colabs_abaixo_do_limiar. rewrite (nodup_fixed_point Z.eq_dec Hnd).
  cbn [ColabsRuins resumo_do_contrato].
  apply (SUM_int_indicator (fun x => ruim limiar (nota_media db ini fim x))).
  intros x. apply ruim_0_1.
Qed.

Lemma resumo_colabs_ruins_sem_repeticao_witness :
  ColabsRuins (mkResumo 1 "Acme" "Portal" 2 (Some (6 # 3)) (Some (54 # 18)) 1)
  = colabs_abaixo_do_limiar db_equipe fev_ini fev_fim 3.0%Q 1.
Proof.
  apply (resumo_colabs_ruins_sem_repeticao db_equipe fev_ini fev_fim 3.0%Q
           (mkContrato 1 10 "Portal" true) (mkEmpresa 10 "Acme")).
  - reflexivity.
  - reflexivity.
  - reflexivity.
  - repeat constructor; cbn; intuition discriminate.
  - left. reflexivity.
  - reflexivity.
Defined.

(** ** The preselected contract *)

Lemma dict_set_head k v k0 v0 d :
  exists v' d', dict_set k v ((k0, v0) :: d) = (k0, v') :: d'.
Proof.
  cbn. destruct (Z.eqb_spec k0 k) as [->|_]; eauto.
Qed.

Section PaginaFacts.
Context {num : Type} {ar : Arit num}.

Lemma cid_to_nome_head (df : list (RelatorioRow num)) k0 v0 d :
  exists v' d',
    fold_left (fun d (row : RelatorioRow num) =>
                 dict_set (ContratoId row) (Cliente row ++ " – " ++ Projeto row)%string d)
              df ((k0, v0) :: d)
    = (k0, v') :: d'.
Proof.
  revert v0 d. induction df as [|row t IH]; intros v0 d; cbn [fold_left].
  - eauto.
  - destruct (dict_set_head (ContratoId row) (Cliente row ++ " – " ++ Projeto row)%string
                            k0 v0 d) as (v' & d' & ->).
    apply IH.
Qed.

(** The first option of the select box is the contract of the first row. *)
Lemma cid_to_nome_first (row : RelatorioRow num) (t : list (RelatorioRow num)) :
  nth_error (map fst (cid_to_nome (row :: t))) 0 = Some (ContratoId row).
Proof.
  unfold cid_to_nome. cbn [fold_left dict_set].
  destruct (cid_to_nome_head t (ContratoId row)
              (Cliente row ++ " – " ++ Projeto row)%string []) as (v' & d' & ->).
  reflexivity.
Qed.

(** X4: [cid_default] is the contract of the first row, nothing for an empty
    report; the select box starts on it unless that contract id is 0, and
    then it starts with no selection. *)
Lemma cid_default_spec (df : list (RelatorioRow num)) :
  (df = [] -> cid_default df = None /\ cid df = None)
  /\ (forall row t, df = row :: t ->
        cid_default df = Some (ContratoId row)
        /\ (ContratoId row <> 0 -> cid df = cid_default df)
        /\ (ContratoId row = 0 -> cid df = None)).
Proof.
  split.
  - intros ->. split; reflexivity.
  - intros row t ->. split; [reflexivity|]. unfold cid. cbn [cid_default truthy].
    split; intros H.
    + apply Z.eqb_neq in H. rewrite H. cbn [negb selectbox]. apply cid_to_nome_first.
    + rewrite H. reflexivity.
Qed.

End PaginaFacts.

(** C9, at an input where it fails: the first row of [df_zero] is contract
    0; [cid_default] is that contract, but the select box starts with no
    selection and no detail is fetched. *)
Theorem cid_default_zero :
  cid_default df_zero = Some 0
  /\ map fst (cid_to_nome df_zero) = [0; 7]
  /\ cid df_zero = None
  /\ detal db_exemplo fev_ini df_zero = None.
Proof.
  repeat split; reflexivity.
Qed.

(** ** The month selector *)

Lemma MS_rollback_first d : MS_rollback d = first_of_month d.
Proof.
  unfold MS_rollback, MS_is_on_offset, replace_day, first_of_month.
  destruct (Z.eqb_spec (day d) 1) as [E|_]; [|reflexivity].
  destruct d as [y m dd]. cbn in *. now subst.
Qed.

Lemma months_before_0 d : 1 <= month d <= 12 -> months_before d 0 = first_of_month d.
Proof.
  intros H. unfold months_before, first_of_month. f_equal;
    Z.to_euclidean_division_equations; lia.
Qed.

Lemma MS_sub_months_before d i : MS_sub (months_before d i) = months_before d (i + 1).
Proof.
  unfold MS_sub, months_before. cbn [year month day].
  destruct (Z.eqb_spec ((12 * year d + (month d - 1) - i) mod 12 + 1) 1);
    f_equal; Z.to_euclidean_division_equations; lia.
Qed.

Lemma MS_add_months_before d i : MS_add (months_before d i) = months_before d (i - 1).
Proof.
  unfold MS_add, months_before. cbn [year month day].
  destruct (Z.eqb_spec ((12 * year d + (month d - 1) - i) mod 12 + 1) 12);
    f_equal; Z.to_euclidean_division_equations; lia.
Qed.

Lemma iter_MS_sub d (k : nat) :
  Nat.iter k MS_sub (months_before d 0) = months_before d (Z.of_nat k).
Proof.
  induction k as [|k IH]; [reflexivity|].
  rewrite Nat.iter_succ, IH, MS_sub_months_before. f_equal. lia.
Qed.

Lemma generate_range_length cur n : List.length (generate_range cur n) = n.
Proof.
  revert cur. induction n as [|n IH]; intros cur; cbn; [reflexivity|]. now rewrite IH.
Qed.

Lemma generate_range_nth d (n : nat) : forall s (i : nat),
  (i < n)%nat ->
  nth_error (generate_range (months_before d s) n) i
  = Some (months_before d (s - Z.of_nat i)).
Proof.
  induction n as [|n IH]; intros s i Hi; [lia|].
  destruct i as [|i]; cbn [generate_range nth_error].
  - do 2 f_equal. lia.
  - rewrite MS_add_months_before, IH by lia. do 2 f_equal. lia.
Qed.

Lemma meses_nth today (i : nat) :
  1 <= month today <= 12 -> (i < 24)%nat ->
  nth_error (meses today) i = Some (months_before today (Z.of_nat i)).
Proof.
  intros Hm Hi. unfold meses, date_range_MS.
  rewrite MS_rollback_first, <- (months_before_0 today Hm).
  change (24 - 1)%nat with 23%nat. rewrite iter_MS_sub.
  rewrite nth_error_rev, generate_range_length.
  destruct (Nat.ltb_spec i 24) as [_|]; [|lia].
  rewrite generate_range_nth by lia. do 2 f_equal. lia.
Qed.

Lemma meses_length today : List.length (meses today) = 24%nat.
Proof.
  unfold meses, date_range_MS. now rewrite length_rev, generate_range_length.
Qed.

Lemma meses_In today m :
  1 <= month today <= 12 ->
  In m (meses today) <-> exists i : nat, (i < 24)%nat /\ m = months_before today (Z.of_nat i).
Proof.
  intros Hm. split.
  - intros H. apply In_nth_error in H as (i & Hi).
    assert (i < 24)%nat as Hlt
        by (rewrite <- (meses_length today); apply nth_error_Some; congruence).
    rewrite meses_nth in Hi by assumption. exists i. split; congruence.
  - intros (i & Hi & ->). eapply nth_error_In. now apply meses_nth.
Qed.

Lemma interval_month_on_offset y m :
  1 <= m <= 12 ->
  interval_month (mkdate y m 1) = (mkdate y m 1, mkdate y m (monthrange y m)).
Proof.
  intros Hm. unfold interval_month, replace_day, add_relativedelta_months, sub_one_day.
  cbn [year month day]. f_equal.
  destruct (Z.ltb_spec 12 (m + 1)).
  - pose proof (monthrange_bounds (y + 1) (m + 1 - 12)).
    cbn [year month day]. rewrite Z.min_r by lia. cbn [Z.ltb Z.compare].
    assert (m = 12) as -> by lia. cbn. f_equal. lia.
  - destruct (Z.ltb_spec (m + 1) 1); [lia|].
    pose proof (monthrange_bounds y (m + 1)).
    cbn [year month day]. rewrite Z.min_r by lia. change (1 <? 1) with false. cbv iota.
    destruct (Z.ltb_spec 1 (m + 1)); [|lia].
    replace (m + 1 - 1) with m by lia. reflexivity.
Qed.

(** X6: the month selector offers 24 months, the month of today first and
    then one month back at each step; each is the first day of its month,
    so for every month the page can pass, the window of [interval_month] is
    that whole calendar month. *)
Theorem meses_spec (today : date) :
  valid_date today ->
  List.length (meses today) = 24%nat
  /\ nth_error (meses today) 0 = Some (first_of_month today)
  /\ (forall i : nat, (i < 24)%nat ->
        nth_error (meses today) i = Some (months_before today (Z.of_nat i)))
  /\ (forall m, In m (meses today) ->
        day m = 1 /\ 1 <= month m <= 12
        /\ interval_month m = (first_of_month m, last_of_month m)).
Proof.
  intros (_ & Hm & _). split; [apply meses_length|]. split; [|split].
  - rewrite (meses_nth today 0 Hm) by lia. now rewrite months_before_0.
  - intros i Hi. now apply meses_nth.
  - intros m Hin. apply (meses_In today m Hm) in Hin as (i & _ & ->).
    unfold months_before. cbn [year month day].
    assert (1 <= (12 * year today + (month today - 1) - Z.of_nat i) mod 12 + 1 <= 12) as Hb
        by (Z.to_euclidean_division_equations; lia).
    split; [reflexivity|]. split; [exact Hb|].
    now rewrite interval_month_on_offset.
Qed.

Lemma meses_spec_witness :
  nth_error (meses hoje_exemplo) 3 = Some (mkdate 2023 12 1)
  /\ interval_month (mkdate 2023 12 1) = (mkdate 2023 12 1, mkdate 2023 12 31).
Proof.
  assert (valid_date hoje_exemplo) as Hv by (repeat split; discriminate).
  destruct (meses_spec hoje_exemplo Hv) as (_ & _ & Hn & Hw).
  split; [exact (Hn 3%nat ltac:(lia))|].
  apply (Hw (mkdate 2023 12 1)). vm_compute. tauto.
Defined.

Lemma digit_inj a b : digit a = digit b -> a mod 10 = b mod 10.
Proof.
  unfold digit. intros H. apply (f_equal nat_of_ascii) in H.
  pose proof (Z.mod_pos_bound a 10 ltac:(lia)).
  pose proof (Z.mod_pos_bound b 10 ltac:(lia)).
  rewrite !nat_ascii_embedding in H by lia. lia.
Qed.

Lemma strftime_Ym_inj a b :
  0 <= year a < 10000 -> 0 <= year b < 10000 ->
  0 <= month a < 100 -> 0 <= month b < 100 ->
  day a = day b ->
  strftime_Ym a = strftime_Ym b -> a = b.
Proof.
  intros Hya Hyb Hma Hmb Hd H. unfold strftime_Ym in H.
  injection H as H1 H2 H3 H4 H5 H6.
  apply digit_inj in H1, H2, H3, H4, H5, H6.
  destruct a as [ya ma da], b as [yb mb db]. cbn [year month day] in *.
  assert (ya = yb) by (clear H5 H6; Z.to_euclidean_division_equations; lia).
  assert (ma = mb) by (clear H1 H2 H3 H4; Z.to_euclidean_division_equations; lia).
  congruence.
Qed.

Lemma months_before_inj d i j : months_before d i = months_before d j -> i = j.
Proof.
  unfold months_before. intros H. injection H as Hq Hr.
  Z.to_euclidean_division_equations; lia.
Qed.

Lemma months_before_year d (i : nat) :
  1 <= month d <= 12 -> (i < 24)%nat ->
  year d - 2 <= year (months_before d (Z.of_nat i)) <= year d
  /\ 1 <= month (months_before d (Z.of_nat i)) <= 12.
Proof.
  intros Hm Hi. unfold months_before. cbn [year month].
  Z.to_euclidean_division_equations; lia.
Qed.

Lemma meses_NoDup today : 1 <= month today <= 12 -> NoDup (meses today).
Proof.
  intros Hm. apply NoDup_nth_error. intros i j Hi E.
  rewrite meses_length in Hi.
  assert (j < 24)%nat as Hj.
  { rewrite <- (meses_length today). apply nth_error_Some.
    rewrite <- E, meses_nth by assumption. discriminate. }
  rewrite !meses_nth in E by assumption.
  assert (months_before today (Z.of_nat i) = months_before today (Z.of_nat j)) as E'
      by congruence.
  apply months_before_inj in E'. lia.
Qed.

Lemma mes_str_NoDup today :
  1 <= month today <= 12 -> 1002 <= year today <= 9999 -> NoDup (mes_str today).
Proof.
  intros Hm Hy. unfold mes_str. apply NoDup_nth_error. intros i j Hi E.
  rewrite length_map, meses_length in Hi.
  assert (j < 24)%nat as Hj.
  { rewrite <- (meses_length today), <- (length_map strftime_Ym).
    apply nth_error_Some. rewrite <- E, nth_error_map, meses_nth by assumption.
    discriminate. }
  rewrite !nth_error_map, !meses_nth in E by assumption.
  assert (strftime_Ym (months_before today (Z.of_nat i))
          = strftime_Ym (months_before today (Z.of_nat j))) as E'
      by (cbn [option_map] in E; congruence).
  pose proof (months_before_year today i Hm Hi).
  pose proof (months_before_year today j Hm Hj).
  apply strftime_Ym_inj in E'; [|lia|lia|lia|lia|reflexivity].
  apply months_before_inj in E'. lia.
Qed.

Lemma list_index_nth (l : list string) : forall (i : nat) s,
  NoDup l -> nth_error l i = Some s -> list_index s l = Some i.
Proof.
  induction l as [|y t IH]; intros i s Hnd Hn; [destruct i; discriminate|].
  inversion Hnd as [|? ? Hy Ht]; subst. destruct i as [|i]; cbn in *.
  - injection Hn as ->. now rewrite String.eqb_refl.
  - destruct (String.eqb_spec y s) as [->|_].
    + exfalso. apply Hy. eapply nth_error_In, Hn.
    + now rewrite (IH i s Ht Hn).
Qed.

Lemma list_index_Some (l : list string) : forall s (i : nat),
  list_index s l = Some i -> nth_error l i = Some s.
Proof.
  induction l as [|y t IH]; intros s i H; cbn in H; [discriminate|].
  destruct (String.eqb_spec y s) as [->|_].
  - injection H as <-. reflexivity.
  - destruct (list_index s t) as [k|] eqn:E; [|discriminate].
    injection H as <-. cbn. now apply IH.
Qed.

Lemma list_index_None (l : list string) s : list_index s l = None <-> ~ In s l.
Proof.
  induction l as [|y t IH]; cbn; [tauto|].
  destruct (String.eqb_spec y s) as [->|Hne].
  - split; [discriminate|]. intros H. exfalso. apply H. now left.
  - destruct (list_index s t) as [k|]; cbn.
    + split; [discriminate|]. intros H. exfalso.
      assert (~ In s t) as Hn by tauto. apply IH in Hn. discriminate.
    + split; [|reflexivity]. intros _ [E|Hin]; [congruence|].
      now apply (proj1 IH).
Qed.

(** X7: the labels of the month selector, the months written as year and
    month, are pairwise different; so choosing the label of a month gives
    back that month (whatever [mes] returns carries the chosen label), and
    a string that is no label raises, here nothing. The option preselected
    when the page loads, the first, gives the month of today. *)
Theorem mes_round_trip (today : date) :
  valid_date today -> 1002 <= year today <= 9999 ->
  NoDup (mes_str today)
  /\ (forall m, In m (meses today) -> mes today (strftime_Ym m) = Some m)
  /\ (forall s m, mes today s = Some m -> In m (meses today) /\ strftime_Ym m = s)
  /\ (forall s, ~ In s (mes_str today) -> mes today s = None)
  /\ (exists s, selectbox (mes_str today) (Some 0%nat) = Some s
                /\ mes today s = Some (first_of_month today)).
Proof.
  intros (_ & Hm & _) Hy.
  pose proof (mes_str_NoDup today Hm Hy) as Hnd.
  assert (forall m, In m (meses today) -> mes today (strftime_Ym m) = Some m) as Hrt.
  { intros m Hin. apply In_nth_error in Hin as (i & Hi). unfold mes.
    rewrite (list_index_nth (mes_str today) i (strftime_Ym m) Hnd); [exact Hi|].
    unfold mes_str. now rewrite nth_error_map, Hi. }
  assert (nth_error (meses today) 0 = Some (first_of_month today)) as H0
      by (rewrite (meses_nth today 0 Hm) by lia; now rewrite months_before_0).
  split; [exact Hnd|]. split; [exact Hrt|]. split; [|split].
  - intros s m. unfold mes.
    destruct (list_index s (mes_str today)) as [i|] eqn:E; [|discriminate].
    intros Hi. apply list_index_Some in E. unfold mes_str in E.
    rewrite nth_error_map, Hi in E. injection E as E.
    split; [eapply nth_error_In, Hi|exact E].
  - intros s Hs. unfold mes. apply list_index_None in Hs. now rewrite Hs.
  - exists (strftime_Ym (first_of_month today)). split.
    + unfold selectbox, mes_str. now rewrite nth_error_map, H0.
    + apply Hrt. eapply nth_error_In, H0.
Qed.

Lemma mes_round_trip_witness :
  mes hoje_exemplo "2023-12" = Some (mkdate 2023 12 1)
  /\ mes hoje_exemplo "2022-03" = None.
Proof.
  assert (valid_date hoje_exemplo) as Hv by (repeat split; discriminate).
  assert (1002 <= year hoje_exemplo <= 9999) as Hy by (cbn; lia).
  destruct (mes_round_trip hoje_exemplo Hv Hy) as (_ & Hr & _ & Hn & _).
  split.
  - apply (Hr (mkdate 2023 12 1)). vm_compute. tauto.
  - apply Hn. vm_compute. intuition discriminate.
Defined.

(** ** The details query: order and completeness *)

Lemma date_leb_total a b : date_leb a b = false -> date_leb b a = true.
Proof.
  unfold date_leb.
  destruct (Z.ltb_spec (year a) (year b)), (Z.eqb_spec (year a) (year b)),
    (Z.ltb_spec (month a) (month b)), (Z.eqb_spec (month a) (month b)),
    (Z.leb_spec (day a) (day b)),
    (Z.ltb_spec (year b) (year a)), (Z.eqb_spec (year b) (year a)),
    (Z.ltb_spec (month b) (month a)), (Z.eqb_spec (month b) (month a)),
    (Z.leb_spec (day b) (day a)); cbn; intros; try reflexivity; try discriminate; lia.
Qed.

Lemma detalhes_order_total (le : string -> string -> bool) (a b : JuncaoDetalhe) :
  (forall x y, le x y = false -> le y x = true) ->
  detalhes_order le a b = false -> detalhes_order le b a = true.
Proof.
  intros Htot. unfold detalhes_order. cbv zeta.
  destruct (le (col_NomeCompleto (d_col a)) (col_NomeCompleto (d_col b))) eqn:Eab;
    destruct (le (col_NomeCompleto (d_col b)) (col_NomeCompleto (d_col a))) eqn:Eba;
    cbn [andb orb negb]; try reflexivity; try discriminate.
  - apply date_leb_total.
  - apply Htot in Eab. congruence.
Qed.

Lemma detalhes_order_spec (db : Banco) (a b : JuncaoDetalhe) :
  detalhes_order (colacao db) a b = true ->
  nome_antes db (col_NomeCompleto (d_col a)) (col_NomeCompleto (d_col b))
  \/ (nome_igual db (col_NomeCompleto (d_col a)) (col_NomeCompleto (d_col b))
      /\ date_leb (ac_Periodo (d_ac b)) (ac_Periodo (d_ac a)) = true).
Proof.
  unfold detalhes_order, nome_antes, nome_igual. cbv zeta.
  destruct (colacao db (col_NomeCompleto (d_col a)) (col_NomeCompleto (d_col b)));
    destruct (colacao db (col_NomeCompleto (d_col b)) (col_NomeCompleto (d_col a)));
    cbn [andb orb negb]; intros H; try discriminate; tauto.
Qed.

(** X8: when the collation of the database orders every two names one way
    or the other, the rows of [SQL_DETALHES] come by collaborator name
    ascending under that collation and, among names it takes as equal, by
    period descending: each row and the next are in that order. *)
Theorem detalhes_ordered {num : Type} {ar : Arit num}
        (db : Banco) (cid : Z) (d_ini d_fim : date) :
  colacao_total db ->
  forall (i : nat) (a b : DetalheRow num),
    nth_error (SQL_DETALHES db cid d_ini d_fim) i = Some a ->
    nth_error (SQL_DETALHES db cid d_ini d_fim) (S i) = Some b ->
    nome_antes db (NomeCompleto a) (NomeCompleto b)
    \/ (nome_igual db (NomeCompleto a) (NomeCompleto b)
        /\ date_leb (Periodo b) (Periodo a) = true).
Proof.
  intros Htot i a b Ha Hb. unfold SQL_DETALHES in Ha, Hb.
  rewrite nth_error_map in Ha, Hb.
  destruct (nth_error (detalhes_rows db cid d_ini d_fim) i) as [ja|] eqn:Ea;
    [|discriminate].
  destruct (nth_error (detalhes_rows db cid d_ini d_fim) (S i)) as [jb|] eqn:Eb;
    [|discriminate].
  injection Ha as <-. injection Hb as <-. cbn [detalhes_select NomeCompleto Periodo].
  apply detalhes_order_spec.
  refine (Sorted_adjacent (fun x y => detalhes_order (colacao db) x y = true)
            _ _ i ja jb Ea Eb).
  apply (ordena_sorted (detalhes_order (colacao db)) (fun _ => True)).
  - intros x y _ _. now apply detalhes_order_total.
  - apply Forall_forall. intros; exact I.
Qed.

Lemma sem_caixa_total x y : sem_caixa x y = false -> sem_caixa y x = true.
Proof.
  unfold sem_caixa. intros H.
  destruct (String.leb_total (minusculas x) (minusculas y)) as [E|E]; congruence.
Qed.

Lemma detalhes_ordered_witness :
  exists a b : DetalheRow Q,
    nth_error (SQL_DETALHES db_nomes 1 fev_ini fev_fim) 0 = Some a
    /\ nth_error (SQL_DETALHES db_nomes 1 fev_ini fev_fim) 1 = Some b
    /\ NomeCompleto a = "ana"%string /\ NomeCompleto b = "Bruno"%string
    /\ String.leb "ana" "Bruno" = false
    /\ (nome_antes db_nomes (NomeCompleto a) (NomeCompleto b)
        \/ (nome_igual db_nomes (NomeCompleto a) (NomeCompleto b)
            /\ date_leb (Periodo b) (Periodo a) = true)).
Proof.
  do 2 eexists. split; [reflexivity|]. split; [reflexivity|].
  split; [reflexivity|]. split; [reflexivity|]. split; [reflexivity|].
  apply (detalhes_ordered (num := Q) db_nomes 1 fev_ini fev_fim sem_caixa_total 0%nat);
    reflexivity.
Defined.

(** X9: [SQL_DETALHES] misses nothing and adds nothing: an evaluation of the
    window recorded against the contract, of a collaborator with an active
    assignment to the contract and a row in [Colaboradores], gives a row
    with its scores; and the result has one row for each such combination
    of assignment, evaluation and collaborator row. *)
Theorem detalhes_complete {num : Type} {ar : Arit num}
        (db : Banco) (cid : Z) (d_ini d_fim : date)
        (pec : ProjetoEmpresaColaborador) (ac : AvaliacaoColaborador) (col : Colaborador) :
  In pec (tb_ProjetoEmpresaColaboradores db) ->
  In ac (tb_AvaliacaoColaboradores db) ->
  In col (tb_Colaboradores db) ->
  pec_ContratoId pec = cid -> pec_Ativo pec = true ->
  ac_ContratoId ac = cid -> ac_ColaboradorId ac = pec_ColaboradorId pec ->
  no_periodo (ac_Periodo ac) d_ini d_fim ->
  col_Id col = ac_ColaboradorId ac ->
  In {| NomeCompleto := col_NomeCompleto col;
        Periodo := ac_Periodo ac;
        Nota := nota (num := num) ac;
        Tecnico := ac_Tecnico ac;
        Comunicacao := ac_Comunicacao ac;
        Comprometimento := ac_Comprometimento ac;
        Descricao := ac_Descricao ac |}
     (SQL_DETALHES db cid d_ini d_fim)
  /\ Permutation (SQL_DETALHES (num := num) db cid d_ini d_fim)
                 (map detalhes_select (detalhes_from db cid d_ini d_fim)).
Proof.
  intros Hp Ha Hc H1 H2 H3 H4 H5 H6. split.
  - unfold SQL_DETALHES.
    apply (in_map detalhes_select _ (pec, ac, col)).
    apply in_detalhes_rows, in_detalhes_from. tauto.
  - unfold SQL_DETALHES, detalhes_rows. apply Permutation_map, ordena_perm.
Qed.

Lemma detalhes_complete_witness :
  In (mkDetalhe "Bruno" (mkdate 2024 2 12) (nota (mkAvaliacao 101 1 (mkdate 2024 2 12) 4 4 4 None))
                4 4 4 None)
     (SQL_DETALHES (num := Q) db_equipe 1 fev_ini fev_fim).
Proof.
  refine (proj1 (detalhes_complete (num := Q) db_equipe 1 fev_ini fev_fim
                   (mkPec 1 101 true) (mkAvaliacao 101 1 (mkdate 2024 2 12) 4 4 4 None)
                   (mkColaborador 101 "Bruno") _ _ _ _ _ _ _ _ _)).
  - right. left. reflexivity.
  - right. left. reflexivity.
  - right. left. reflexivity.
  - reflexivity.
  - reflexivity.
  - reflexivity.
  - reflexivity.
  - split; reflexivity.
  - reflexivity.
Defined.

(** ** The summary query: which rows, and how their columns hang together *)

Section ResumoLinhas.
Context {num : Type} {ar : Arit num}.

Lemma resumo_select_key (limiar : num) (g : ResumoKey * list (Juncao (num := num))) :
  (ContratoId (resumo_select limiar g), Cliente (resumo_select limiar g),
   Projeto (resumo_select limiar g)) = fst g.
Proof. destruct g as [[[id nome] objeto] rows]. reflexivity. Qed.

Lemma non_null_nil_all_None {A : Type} (l : list (option A)) :
  non_null l = [] -> forall v, In v l -> v = None.
Proof.
  intros H [a|] Hv; [|reflexivity].
  apply in_non_null in Hv. rewrite H in Hv. destruct Hv.
Qed.

(** X10: a contract has a row in [SQL_RESUMO] exactly when it is active, its
    client exists in [Empresas] and it has an active assignment; the row
    carries the contract id, the client name and the contract object. *)
Theorem resumo_linhas (db : Banco) (ini fim : date) (limiar : num)
        (id : Z) (nome objeto : string) :
  (exists r, In r (SQL_RESUMO db ini fim limiar)
             /\ ContratoId r = id /\ Cliente r = nome /\ Projeto r = objeto)
  <-> (exists c e pec,
          In c (tb_Contratos db) /\ In e (tb_Empresas db)
          /\ In pec (tb_ProjetoEmpresaColaboradores db)
          /\ e_Id e = c_EmpresaId c /\ c_IsAtivo c = true
          /\ pec_ContratoId pec = c_Id c /\ pec_Ativo pec = true
          /\ c_Id c = id /\ e_Nome e = nome /\ c_Objeto c = objeto).
Proof.
  split.
  - intros (r & Hr & H1 & H2 & H3).
    apply in_SQL_RESUMO in Hr as (k & g & Hg & ->).
    apply in_GROUP_BY in Hg as ((j & Hj & Hk) & _).
    apply in_resumo_from in Hj as (Hc & He & Hp & E1 & E2 & E3 & E4 & _).
    destruct (resumo_select_fields limiar k g) as (F1 & F2 & F3 & _).
    rewrite F1 in H1. rewrite F2 in H2. rewrite F3 in H3.
    subst k. cbn in H1, H2, H3.
    exists (j_c j), (j_e j), (j_pec j). tauto.
  - intros (c & e & pec & Hc & He & Hp & E1 & E2 & E3 & E4 & <- & <- & <-).
    destruct (resumo_from_complete (num := num) db ini fim c e pec Hc He Hp E1 E2 E3 E4)
      as (n & Hn).
    exists (resumo_select limiar
              (resumo_key (c, e, pec, n),
               filter (same_key ResumoKey_dec resumo_key (resumo_key (c, e, pec, n)))
                      (resumo_from db ini fim))).
    split; [|repeat split].
    apply in_SQL_RESUMO. do 2 eexists. split; [|reflexivity].
    apply in_GROUP_BY. split; [|reflexivity]. now exists (c, e, pec, n).
Qed.

(** X11: [GROUP BY c.Id, e.Nome, c.Objeto]: no two rows of [SQL_RESUMO]
    agree on contract id, client and project. *)
Theorem resumo_chaves_NoDup (db : Banco) (ini fim : date) (limiar : num) :
  NoDup (map (fun r : ResumoRow num => (ContratoId r, Cliente r, Projeto r))
             (SQL_RESUMO db ini fim limiar)).
Proof.
  unfold SQL_RESUMO. rewrite map_map.
  rewrite (map_ext _ fst (resumo_select_key limiar)).
  apply GROUP_BY_keys_NoDup.
Qed.

(** X12: in every row of [SQL_RESUMO], in any arithmetic, the worst score is
    missing exactly when the mean is, and then no collaborator counts as
    below the threshold; at least one collaborator is counted, and the
    count below the threshold is never negative. *)
Theorem resumo_colunas_coerentes (db : Banco) (ini fim : date) (limiar : num)
        (r : ResumoRow num) :
  In r (SQL_RESUMO db ini fim limiar) ->
  (PiorNota r = None <-> NotaMedia r = None)
  /\ (PiorNota r = None -> ColabsRuins r = 0)
  /\ 1 <= Colaboradores r
  /\ 0 <= ColabsRuins r.
Proof.
  intros Hr. apply in_SQL_RESUMO in Hr as (k & g & Hg & ->).
  destruct (resumo_select_fields limiar k g) as (_ & _ & _ & F4 & F5 & F6 & F7).
  rewrite F4, F5, F6, F7. clear F4 F5 F6 F7.
  apply GROUP_BY_rows in Hg as (Hne & _).
  split; [|split; [|split]].
  - rewrite MIN_None, AVG_nil_iff. tauto.
  - rewrite MIN_None. intros H. apply SUM_int_zero. intros x Hx.
    apply in_map_iff in Hx as (j & <- & Hj).
    rewrite (non_null_nil_all_None _ H (j_NotaMedia j)); [reflexivity|].
    now apply in_map.
  - apply COUNT_DISTINCT_pos. destruct g; [congruence|discriminate].
  - rewrite (SUM_int_indicator (fun j => ruim limiar (j_NotaMedia j)) g)
      by (intros j; apply ruim_0_1).
    lia.
Qed.
End ResumoLinhas.

Lemma resumo_colunas_coerentes_witness :
  exists r : ResumoRow Q,
    In r (SQL_RESUMO db_equipe fev_ini fev_fim 3.0%Q)
    /\ (PiorNota r = None <-> NotaMedia r = None)
    /\ Colaboradores r = 2 /\ ColabsRuins r = 1.
Proof.
  eexists. split; [left; reflexivity|].
  split; [|split; reflexivity].
  refine (proj1 (resumo_colunas_coerentes db_equipe fev_ini fev_fim 3.0%Q _ _)).
  left. reflexivity.
Defined.

(** ** The threshold: flag, severity and count *)

Lemma SUM_int_ge_elem (l : list Z) x :
  (forall y, In y l -> 0 <= y) -> In x l -> x <= SUM_int l.
Proof.
  induction l as [|y t IH]; intros Hpos Hx; [destruct Hx|].
  cbn [SUM_int fold_right]. fold (SUM_int t).
  assert (0 <= SUM_int t) as Ht.
  { clear -Hpos. induction t as [|z t IH]; cbn; [lia|].
    fold (SUM_int t). assert (0 <= z) by (apply Hpos; cbn; tauto).
    assert (0 <= SUM_int t) by (apply IH; intros w Hw; apply Hpos; cbn in *; tauto).
    lia. }
  assert (0 <= y) by (apply Hpos; now left).
  destruct Hx as [->|Hx]; [lia|].
  assert (x <= SUM_int t) by (apply IH; [intros w Hw; apply Hpos; now right|assumption]).
  lia.
Qed.

Lemma SUM_int_le {A : Type} (f g : A -> Z) (l : list A) :
  (forall a, In a l -> f a <= g a) -> SUM_int (map f l) <= SUM_int (map g l).
Proof.
  induction l as [|a t IH]; intros H; cbn; [lia|].
  fold (SUM_int (map f t)). fold (SUM_int (map g t)).
  assert (f a <= g a) by (apply H; now left).
  assert (SUM_int (map f t) <= SUM_int (map g t)) by (apply IH; intros; apply H; now right).
  lia.
Qed.

Lemma SUM_int_ruim_nonneg {num : Type} {ar : Arit num} (limiar : num)
      (l : list (option num)) :
  0 <= SUM_int (map (ruim limiar) l).
Proof.
  rewrite (SUM_int_indicator (ruim limiar) l) by (intros v; apply ruim_0_1). lia.
Qed.

Lemma ruim_1 (limiar : Q) (v : option Q) :
  ruim limiar v = 1 <-> exists x, v = Some x /\ (x < limiar)%Q.
Proof.
  unfold ruim. destruct v as [x|]; exato.
  - destruct (Qltb x limiar) eqn:E.
    + apply Qltb_lt in E. split; [intros _; now exists x|reflexivity].
    + apply Qltb_ge in E. split; [discriminate|].
      intros (y & [= <-] & H). contradiction.
  - split; [discriminate|]. intros (x & H & _). discriminate.
Qed.

Lemma MIN_abaixo (limiar : Q) (l : list (option Q)) :
  (exists w, MIN l = Some w /\ (w < limiar)%Q) <-> 1 <= SUM_int (map (ruim limiar) l).
Proof.
  split.
  - intros (w & Hw & Hlt). apply MIN_spec in Hw as (Hin & _).
    apply in_non_null in Hin.
    apply (SUM_int_ge_elem (map (ruim limiar) l) 1).
    + intros y Hy. apply in_map_iff in Hy as (v & <- & _).
      destruct (ruim_0_1 limiar v) as [->| ->]; lia.
    + apply in_map_iff. exists (Some w). split; [|assumption].
      apply ruim_1. now exists w.
  - intros H.
    assert (exists v, In v l /\ ruim limiar v = 1) as (v & Hv & Hr).
    { induction l as [|v t IH]; cbn in H; [lia|].
      fold (SUM_int (map (ruim limiar) t)) in H.
      destruct (ruim_0_1 limiar v) as [E|E].
      - destruct IH as (v' & Hv' & Hr'); [lia|]. exists v'. split; [now right|assumption].
      - exists v. split; [now left|assumption]. }
    apply ruim_1 in Hr as (x & -> & Hx). apply in_non_null in Hv.
    destruct (MIN l) as [w|] eqn:Ew.
    + exists w. split; [reflexivity|]. apply MIN_spec in Ew as (_ & Hmin).
      specialize (Hmin x Hv). lra.
    + apply MIN_None in Ew. rewrite Ew in Hv. destruct Hv.
Qed.

Lemma classifica_severidade (limiar : Q) (row : ResumoRow Q) :
  (fst (classifica limiar row) = 0 \/ fst (classifica limiar row) = 1
   <-> exists w, PiorNota row = Some w /\ (w < limiar)%Q)
  /\ (fst (classifica limiar row) = 0 \/ fst (classifica limiar row) = 1
      \/ fst (classifica limiar row) = 2 \/ fst (classifica limiar row) = 3).
Proof.
  unfold classifica. destruct (PiorNota row) as [p|]; exato.
  - destruct (Qltb p (limiar - 0.5)) eqn:E1; [|destruct (Qltb p limiar) eqn:E2]; cbn [fst].
    + apply Qltb_lt in E1. split; [|tauto]. split; [|tauto].
      intros _. exists p. split; [reflexivity|lra].
    + apply Qltb_lt in E2. split; [|tauto]. split; [|tauto].
      intros _. now exists p.
    + apply Qltb_ge in E2. split; [|tauto]. split; [intros [H|H]; discriminate|].
      intros (w & [= <-] & H). contradiction.
  - cbn [fst]. split; [|tauto]. split; [intros [H|H]; discriminate|].
    intros (w & H & _). discriminate.
Qed.

(** X13: in the report of [fetch_resumo], in exact arithmetic, a contract
    is critical or on alert exactly when the query counted a collaborator
    below the threshold for it, and is OK or without evaluation exactly
    when it counted none: the status and the column [ColabsRuins] never
    disagree. *)
Theorem severidade_colabs_ruins (db : Banco) (month : date) (limiar : Q)
        (df : list (RelatorioRow Q)) (r : RelatorioRow Q) :
  fetch_resumo db month limiar = Some df -> In r df ->
  (Severidade r = 0 \/ Severidade r = 1 <-> 1 <= ColabsRuins r)
  /\ (Severidade r = 2 \/ Severidade r = 3 <-> ColabsRuins r = 0).
Proof.
  intros Hdf Hr. apply fetch_resumo_Some in Hdf as (_ & ->).
  set (d_ini := fst (interval_month month)) in *.
  set (d_fim := snd (interval_month month)) in *.
  apply relatorio_In in Hr as (row & Hrow & ->). cbn [Severidade linha].
  destruct (classifica_severidade limiar row) as (Hs & Hcases).
  apply in_SQL_RESUMO in Hrow as (k & g & _ & ->).
  destruct (resumo_select_fields limiar k g) as (_ & _ & _ & _ & F5 & _ & F7).
  rewrite F5 in Hs. rewrite F7.
  rewrite <- (map_map j_NotaMedia (ruim limiar)).
  pose proof (SUM_int_ruim_nonneg limiar (map j_NotaMedia g)) as Hpos.
  rewrite (MIN_abaixo limiar (map j_NotaMedia g)) in Hs.
  split; [exact Hs|]. split.
  - intros H23. destruct (Z_le_gt_dec 1 (SUM_int (map (ruim limiar) (map j_NotaMedia g))))
      as [Hge|Hlt]; [|lia].
    apply Hs in Hge. lia.
  - intros H0. rewrite H0 in Hs. assert (~ 1 <= 0) by lia. tauto.
Qed.

Lemma severidade_colabs_ruins_witness :
  exists (df : list (RelatorioRow Q)) (r : RelatorioRow Q),
    fetch_resumo db_equipe fev_ini 3.0%Q = Some df /\ In r df
    /\ Severidade r = 0 /\ ColabsRuins r = 1
    /\ (Severidade r = 0 \/ Severidade r = 1 <-> 1 <= ColabsRuins r).
Proof.
  do 2 eexists. split; [reflexivity|]. split; [left; reflexivity|].
  split; [reflexivity|]. split; [reflexivity|].
  refine (proj1 (severidade_colabs_ruins db_equipe fev_ini 3.0%Q _ _ eq_refl _)).
  left. reflexivity.
Defined.

Lemma Forall2_map_same {A B : Type} (R : B -> B -> Prop) (f g : A -> B) (l : list A) :
  (forall a, In a l -> R (f a) (g a)) -> Forall2 R (map f l) (map g l).
Proof.
  induction l as [|a t IH]; intros H; cbn; constructor.
  - apply H. now left.
  - apply IH. intros; apply H. now right.
Qed.

Lemma ruim_mono (l l' : Q) (v : option Q) :
  (l <= l')%Q -> ruim l v <= ruim l' v.
Proof.
  intros Hl. destruct (ruim_0_1 l v) as [E|E]; destruct (ruim_0_1 l' v) as [E'|E'];
    rewrite E, E'; try lia.
  exfalso. apply ruim_1 in E as (x & -> & Hx).
  assert (ruim l' (Some x) = 1) as E1 by (apply ruim_1; exists x; split; [reflexivity|lra]).
  congruence.
Qed.

Lemma classifica_mono (l l' : Q) (row row' : ResumoRow Q) :
  (l <= l')%Q -> PiorNota row = PiorNota row' ->
  fst (classifica l' row') <= fst (classifica l row).
Proof.
  intros Hl E. unfold classifica. rewrite <- E.
  destruct (PiorNota row) as [p|]; [|cbn; lia]. exato.
  destruct (Qltb p (l' - 0.5)) eqn:A'; destruct (Qltb p l') eqn:B';
    destruct (Qltb p (l - 0.5)) eqn:A; destruct (Qltb p l) eqn:B; cbn [fst]; try lia;
    repeat match goal with
           | H : Qltb _ _ = true |- _ => apply Qltb_lt in H
           | H : Qltb _ _ = false |- _ => apply Qltb_ge in H
           end; exfalso; lra.
Qed.

(** X14: raising the threshold, in exact arithmetic, changes nothing in the
    rows of [SQL_RESUMO] but the count below the threshold, which can only
    grow; and the severity [classifica] gives a row can only move towards
    critical. *)
Theorem limiar_monotono (db : Banco) (ini fim : date) (l l' : Q) :
  (l <= l')%Q ->
  Forall2 (fun r r' : ResumoRow Q =>
             ContratoId r = ContratoId r' /\ Cliente r = Cliente r'
             /\ Projeto r = Projeto r' /\ Colaboradores r = Colaboradores r'
             /\ PiorNota r = PiorNota r' /\ NotaMedia r = NotaMedia r'
             /\ ColabsRuins r <= ColabsRuins r'
             /\ fst (classifica l' r') <= fst (classifica l r))
          (SQL_RESUMO db ini fim l) (SQL_RESUMO db ini fim l').
Proof.
  intros Hl. unfold SQL_RESUMO. apply Forall2_map_same. intros [k g] _.
  destruct (resumo_select_fields l k g) as (F1 & F2 & F3 & F4 & F5 & F6 & F7).
  destruct (resumo_select_fields l' k g) as (G1 & G2 & G3 & G4 & G5 & G6 & G7).
  assert (PiorNota (resumo_select l (k, g)) = PiorNota (resumo_select l' (k, g))) as EP
      by congruence.
  repeat split; try congruence.
  - rewrite F7, G7. apply SUM_int_le. intros j _. now apply ruim_mono.
  - now apply classifica_mono.
Qed.

Lemma limiar_monotono_witness :
  Forall2 (fun r r' : ResumoRow Q =>
             ContratoId r = ContratoId r' /\ Cliente r = Cliente r'
             /\ Projeto r = Projeto r' /\ Colaboradores r = Colaboradores r'
             /\ PiorNota r = PiorNota r' /\ NotaMedia r = NotaMedia r'
             /\ ColabsRuins r <= ColabsRuins r'
             /\ fst (classifica 4.5%Q r') <= fst (classifica 3.0%Q r))
          (SQL_RESUMO db_equipe fev_ini fev_fim 3.0%Q)
          (SQL_RESUMO db_equipe fev_ini fev_fim 4.5%Q)
  /\ map ColabsRuins (SQL_RESUMO db_equipe fev_ini fev_fim 3.0%Q) = [1]
  /\ map ColabsRuins (SQL_RESUMO db_equipe fev_ini fev_fim 4.5%Q) = [2].
Proof.
  split; [|split; reflexivity].
  apply (limiar_monotono db_equipe fev_ini fev_fim 3.0%Q 4.5%Q).
  unfold Qle. cbn. lia.
Defined.

(** ** What the summary query does not read *)

Section JoinFacts.
Context {A B : Type}.

Lemma JOIN_filter_l (on : A -> B -> bool) (P : A -> bool) (l : list A) (r : list B) :
  (forall a b, on a b = true -> P a = true) ->
  JOIN on (filter P l) r = JOIN on l r.
Proof.
  intros H. unfold JOIN. rewrite <- flat_map_if_filter.
  apply flat_map_ext_in. intros a _. destruct (P a) eqn:E; [reflexivity|].
  rewrite (filter_none (on a) r); [reflexivity|].
  intros b _. destruct (on a b) eqn:E'; [|reflexivity].
  apply H in E'. congruence.
Qed.

Lemma filter_filter_implied (f P : B -> bool) (r : list B) :
  (forall b, f b = true -> P b = true) -> filter f (filter P r) = filter f r.
Proof.
  intros H. induction r as [|b t IH]; [reflexivity|]. cbn.
  destruct (P b) eqn:E; cbn; [now rewrite IH|].
  destruct (f b) eqn:E'; [|exact IH]. apply H in E'. congruence.
Qed.

Lemma JOIN_filter_r (on : A -> B -> bool) (P : B -> bool) (l : list A) (r : list B) :
  (forall a b, on a b = true -> P b = true) ->
  JOIN on l (filter P r) = JOIN on l r.
Proof.
  intros H. unfold JOIN. apply flat_map_ext_in. intros a _.
  now rewrite (filter_filter_implied (on a) P r (H a)).
Qed.
End JoinFacts.

(** X15: [SQL_RESUMO] reads nothing but the active contracts, the clients,
    the active assignments and the evaluations of the window: on the store
    cut down to these, with the table [Colaboradores] emptied, it returns
    the same result, in any arithmetic. *)
Theorem resumo_recorte {num : Type} {ar : Arit num}
        (db : Banco) (ini fim : date) (limiar : num) :
  SQL_RESUMO (recorte db ini fim) ini fim limiar = SQL_RESUMO db ini fim limiar.
Proof.
  assert (avaliacoes_no_periodo (recorte db ini fim) ini fim
          = avaliacoes_no_periodo db ini fim) as Ea.
  { unfold avaliacoes_no_periodo at 1. cbn [recorte tb_AvaliacaoColaboradores].
    unfold avaliacoes_no_periodo. now apply filter_filter_implied. }
  assert (contratos_empresas (recorte db ini fim) = contratos_empresas db) as Ec.
  { unfold contratos_empresas. cbn [recorte tb_Contratos tb_Empresas].
    apply JOIN_filter_l. intros c e H. now apply andb_true_iff in H as (_ & H). }
  assert (atribuicoes (recorte db ini fim) = atribuicoes db) as Et.
  { unfold atribuicoes. rewrite Ec. cbn [recorte tb_ProjetoEmpresaColaboradores].
    apply JOIN_filter_r. intros x pec H. now apply andb_true_iff in H as (_ & H). }
  unfold SQL_RESUMO, resumo_from, notas. now rewrite Ea, Et.
Qed.

(** ** The report *)

(** X16: [fetch_resumo] returns a frame exactly when the query returns a row
    (with no row, line 87 raises); the frame loses and repeats no row of the
    query: its rows are the rows of [SQL_RESUMO] on the window of the month,
    in another order, each with the severity and status [classifica] gives
    it. *)
Theorem fetch_resumo_perm {num : Type} {ar : Arit num}
        (db : Banco) (month : date) (limiar : num) :
  (fetch_resumo db month limiar = None
   <-> SQL_RESUMO db (fst (interval_month month)) (snd (interval_month month)) limiar = [])
  /\ (forall df, fetch_resumo db month limiar = Some df ->
         df <> []
         /\ Permutation (map linha df)
                        (SQL_RESUMO db (fst (interval_month month))
                                    (snd (interval_month month)) limiar)
         /\ Forall (fun r : RelatorioRow num =>
                      (Severidade r, Status r) = classifica limiar r) df).
Proof.
  split.
  - unfold fetch_resumo. destruct (interval_month month) as [d_ini d_fim].
    cbn [fst snd]. destruct (SQL_RESUMO db d_ini d_fim limiar); split; try discriminate;
      reflexivity.
  - intros df H. apply fetch_resumo_Some in H as (Hne & ->).
    set (linhas := SQL_RESUMO db (fst (interval_month month))
                              (snd (interval_month month)) limiar) in *.
    assert (Permutation (map linha (relatorio limiar linhas)) linhas) as Hp.
    { unfold relatorio, sort_values.
      rewrite (Permutation_map linha (ordena_perm sort_key_leb _)).
      rewrite map_map. cbn [linha classifica_linha]. now rewrite map_id. }
    split; [|split].
    + intros E. rewrite E in Hp. apply Permutation_nil in Hp. congruence.
    + exact Hp.
    + apply Forall_forall. intros r Hr. apply relatorio_In in Hr as (row & _ & ->).
      cbn [Severidade Status linha]. now destruct (classifica limiar row).
Qed.

(** ** The dict of contract labels *)

Lemma dict_set_keys_In k v d k' :
  In k' (map fst (dict_set k v d)) <-> k' = k \/ In k' (map fst d).
Proof.
  induction d as [|[k0 v0] t IH]; cbn; [intuition congruence|].
  destruct (Z.eqb_spec k0 k) as [->|Hne]; cbn; [intuition congruence|].
  rewrite IH. tauto.
Qed.

Lemma dict_set_NoDup k v d : NoDup (map fst d) -> NoDup (map fst (dict_set k v d)).
Proof.
  induction d as [|[k0 v0] t IH]; cbn; intros H.
  - constructor; [tauto|constructor].
  - inversion H as [|? ? Hk Ht]; subst.
    destruct (Z.eqb_spec k0 k) as [->|Hne]; cbn; constructor; try assumption.
    + rewrite dict_set_keys_In. intros [E|E]; [congruence|contradiction].
    + now apply IH.
Qed.

Lemma dict_get_set k v d k' :
  dict_get k' (dict_set k v d) = if k =? k' then Some v else dict_get k' d.
Proof.
  induction d as [|[k0 v0] t IH]; cbn.
  - reflexivity.
  - destruct (Z.eqb_spec k0 k) as [->|Hne]; cbn.
    + destruct (Z.eqb_spec k k'); reflexivity.
    + destruct (Z.eqb_spec k0 k') as [->|Hne'].
      * destruct (Z.eqb_spec k k'); [congruence|reflexivity].
      * exact IH.
Qed.

Lemma dict_set_new k v d : ~ In k (map fst d) -> dict_set k v d = d ++ [(k, v)].
Proof.
  induction d as [|[k0 v0] t IH]; cbn; intros H; [reflexivity|].
  destruct (Z.eqb_spec k0 k) as [->|Hne]; [tauto|].
  rewrite IH by tauto. reflexivity.
Qed.

Lemma dict_get_In k d : In k (map fst d) -> dict_get k d <> None.
Proof.
  induction d as [|[k0 v0] t IH]; cbn; [tauto|].
  destruct (Z.eqb_spec k0 k) as [->|Hne]; [discriminate|].
  intros [E|H]; [congruence|now apply IH].
Qed.

Lemma find_app {A : Type} (f : A -> bool) (l l' : list A) :
  find f (l ++ l') = match find f l with Some x => Some x | None => find f l' end.
Proof.
  induction l as [|a t IH]; cbn; [reflexivity|]. now destruct (f a).
Qed.

Section DictFacts.
Context {num : Type} {ar : Arit num}.

Let passo (d : list (Z * string)) (row : RelatorioRow num) : list (Z * string) :=
  dict_set (ContratoId row) (rotulo row) d.

Lemma fold_passo_keys_In (df : list (RelatorioRow num)) : forall d k,
  In k (map fst (fold_left passo df d))
  <-> In k (map fst d) \/ exists row, In row df /\ ContratoId row = k.
Proof.
  induction df as [|row t IH]; intros d k; cbn [fold_left].
  - split; [tauto|]. intros [H|(row & [] & _)]. exact H.
  - rewrite IH. unfold passo. rewrite dict_set_keys_In. split.
    + intros [[->|H]|(r & Hr & E)].
      * right. exists row. split; [now left|reflexivity].
      * now left.
      * right. exists r. split; [now right|assumption].
    + intros [H|(r & [<-|Hr] & E)].
      * left. now right.
      * left. left. now symmetry.
      * right. now exists r.
Qed.

Lemma fold_passo_NoDup (df : list (RelatorioRow num)) : forall d,
  NoDup (map fst d) -> NoDup (map fst (fold_left passo df d)).
Proof.
  induction df as [|row t IH]; intros d H; cbn [fold_left]; [exact H|].
  apply IH. now apply dict_set_NoDup.
Qed.

Lemma fold_passo_get (df : list (RelatorioRow num)) : forall d k,
  dict_get k (fold_left passo df d)
  = match find (fun row : RelatorioRow num => ContratoId row =? k) (rev df) with
    | Some row => Some (rotulo row)
    | None => dict_get k d
    end.
Proof.
  induction df as [|row t IH]; intros d k; cbn [fold_left rev]; [reflexivity|].
  rewrite IH, find_app.
  destruct (find (fun row0 : RelatorioRow num => ContratoId row0 =? k) (rev t));
    [reflexivity|].
  unfold passo. rewrite dict_get_set. cbn [find].
  now destruct (ContratoId row =? k).
Qed.

Lemma fold_passo_new (df : list (RelatorioRow num)) : forall d,
  NoDup (map fst d ++ map (fun row : RelatorioRow num => ContratoId row) df) ->
  fold_left passo df d
  = d ++ map (fun row : RelatorioRow num => (ContratoId row, rotulo row)) df.
Proof.
  induction df as [|row t IH]; intros d H; cbn [fold_left map].
  - now rewrite app_nil_r.
  - cbn [map] in H.
    change (passo d row) with (dict_set (ContratoId row) (rotulo row) d).
    rewrite dict_set_new.
    + rewrite IH.
      * now rewrite <- app_assoc.
      * rewrite map_app. cbn [map fst]. now rewrite <- app_assoc.
    + apply NoDup_remove_2 in H. intros Hin. apply H, in_or_app. now left.
Qed.

(** X17: the dict [cid_to_nome] holds every contract id of the report once;
    looking a key up gives the label of the last row with that id; so the
    [format_func] of the select box finds a label for each of its options. *)
Theorem cid_to_nome_spec (df : list (RelatorioRow num)) :
  NoDup (map fst (cid_to_nome df))
  /\ (forall k, In k (map fst (cid_to_nome df))
                <-> exists row, In row df /\ ContratoId row = k)
  /\ (forall k, dict_get k (cid_to_nome df) = ultimo_rotulo k df)
  /\ (forall k, In k (map fst (cid_to_nome df)) -> dict_get k (cid_to_nome df) <> None).
Proof.
  change (cid_to_nome df) with (fold_left passo df []).
  split; [|split; [|split]].
  - apply fold_passo_NoDup. constructor.
  - intros k. rewrite fold_passo_keys_In. cbn. tauto.
  - intros k. rewrite fold_passo_get. unfold ultimo_rotulo.
    now destruct (find (fun row : RelatorioRow num => ContratoId row =? k) (rev df)).
  - intros k. apply dict_get_In.
Qed.

(** X18: when no two rows of the report have the same contract id, the
    options of the select box are the contracts in the order of the
    report, the most severe first, each with the label of its row. *)
Theorem cid_to_nome_ordem (df : list (RelatorioRow num)) :
  NoDup (map (fun row : RelatorioRow num => ContratoId row) df) ->
  cid_to_nome df = map (fun row : RelatorioRow num => (ContratoId row, rotulo row)) df.
Proof.
  intros H. change (cid_to_nome df) with (fold_left passo df []).
  now rewrite fold_passo_new.
Qed.
End DictFacts.

Lemma cid_to_nome_ordem_witness :
  cid_to_nome df_dois = [(3, "Acme – Portal"%string); (7, "Acme – App"%string)].
Proof.
  rewrite (cid_to_nome_ordem df_dois); [reflexivity|].
  repeat constructor; cbn; intuition discriminate.
Defined.

(** ** The window, for any day and for the months of the page *)

(** X19: for every valid day, the window of [interval_month] starts on the
    first day of the month of that day and holds the day; it ends on the
    last day of that month exactly when the day is the first of the month. *)
Theorem interval_month_window (d : date) :
  valid_date d ->
  fst (interval_month d) = first_of_month d
  /\ no_periodo d (fst (interval_month d)) (snd (interval_month d))
  /\ (snd (interval_month d) = last_of_month d <-> day d = 1).
Proof.
  intros Hv. pose proof Hv as (Hy & Hm & Hd).
  split; [reflexivity|].
  destruct (Z.eq_dec (day d) 1) as [E|E].
  - destruct d as [y m dd]. cbn [year month day] in *. subst dd.
    rewrite interval_month_on_offset by assumption.
    cbn [fst snd]. pose proof (monthrange_bounds y m).
    split; [|unfold last_of_month; tauto].
    unfold no_periodo, date_leb. cbn [year month day].
    rewrite !Z.ltb_irrefl, !Z.eqb_refl. cbn [orb andb].
    split; apply Z.leb_le; lia.
  - pose proof (interval_month_later_day d Hv ltac:(lia)) as Hs.
    change (fst (interval_month d)) with (first_of_month d).
    rewrite Hs. split.
    + unfold no_periodo, date_leb, first_of_month. cbn [year month day].
      destruct (Z.eqb_spec (month d) 12) as [E12|E12];
        rewrite !orb_true_iff, !andb_true_iff, !orb_true_iff, !andb_true_iff,
          !Z.ltb_lt, !Z.eqb_eq, !Z.leb_le; lia.
    + split; [|contradiction]. unfold last_of_month. intros H.
      apply (f_equal month) in H. cbn [month] in H.
      destruct (Z.eqb_spec (month d) 12); lia.
Qed.

Lemma interval_month_window_witness :
  no_periodo hoje_exemplo (mkdate 2024 3 1) (mkdate 2024 4 14)
  /\ interval_month hoje_exemplo = (mkdate 2024 3 1, mkdate 2024 4 14).
Proof.
  split; [|reflexivity].
  refine (proj1 (proj2 (interval_month_window hoje_exemplo _))).
  repeat split; discriminate.
Defined.

(** X20: for every month the page offers, the queries see exactly the
    evaluations dated in that calendar month: a valid date is in the window
    [fetch_resumo] and [fetch_detalhes] compute if and only if its year and
    month are those of the month selected. *)
Theorem janela_da_pagina (today m p : date) :
  valid_date today -> In m (meses today) -> valid_date p ->
  (BETWEEN p (fst (interval_month m)) (snd (interval_month m)) = true
   <-> year p = year m /\ month p = month m).
Proof.
  intros (_ & Hm & _) Hin (_ & _ & Hd).
  apply (meses_In today m Hm) in Hin as (i & _ & ->).
  unfold months_before. cbn zeta.
  set (ym := (12 * year today + (month today - 1) - Z.of_nat i) / 12).
  set (mm := (12 * year today + (month today - 1) - Z.of_nat i) mod 12 + 1).
  assert (1 <= mm <= 12) as Hmm by (subst mm; Z.to_euclidean_division_equations; lia).
  rewrite interval_month_on_offset by assumption.
  cbn [fst snd year month day]. unfold BETWEEN, date_leb. cbn [year month day].
  rewrite andb_true_iff, !orb_true_iff, !andb_true_iff, !orb_true_iff, !andb_true_iff.
  rewrite !Z.ltb_lt, !Z.eqb_eq, !Z.leb_le.
  split.
  - lia.
  - intros (Ey & Em). rewrite Ey, Em in Hd. lia.
Qed.

Lemma janela_da_pagina_witness :
  BETWEEN (mkdate 2023 12 31) (fst (interval_month (mkdate 2023 12 1)))
          (snd (interval_month (mkdate 2023 12 1))) = true
  <-> 2023 = 2023 /\ 12 = 12.
Proof.
  apply (janela_da_pagina hoje_exemplo (mkdate 2023 12 1) (mkdate 2023 12 31)).
  - repeat split; discriminate.
  - vm_compute. tauto.
  - repeat split; discriminate.
Defined.

(** ** The details shown when the page loads *)

(** X21: when the page loads, details are fetched exactly when the report
    has a first row whose contract id is not zero, and then for that
    contract, the first of the report, and the month selected. *)
Theorem detal_primeira_linha {num : Type} {ar : Arit num}
        (db : Banco) (mes : date) (df : list (RelatorioRow num))
        (rows : list (DetalheRow num)) :
  detal db mes df = Some rows
  <-> exists row t, df = row :: t /\ ContratoId row <> 0
                    /\ rows = fetch_detalhes db (ContratoId row) mes.
Proof.
  unfold detal, cid, selectbox. destruct df as [|row t].
  - cbn. split; [discriminate|]. intros (row & t & H & _). discriminate.
  - cbn [cid_default truthy].
    destruct (Z.eqb_spec (ContratoId row) 0) as [E|E]; cbn [negb].
    + split; [discriminate|]. intros (row' & t' & [= <- <-] & H & _). contradiction.
    + rewrite cid_to_nome_first. cbn [truthy].
      destruct (Z.eqb_spec (ContratoId row) 0) as [|_]; [contradiction|]. cbn [negb].
      split.
      * intros [= <-]. now exists row, t.
      * intros (row' & t' & [= <- <-] & _ & ->). reflexivity.
Qed.

(** ** Summary and details of one contract *)

Section ResumoDetalhes.
Context {num : Type} {ar : Arit num}.

Lemma nota_media_Some db ini fim ac :
  In ac (tb_AvaliacaoColaboradores db) -> no_periodo (ac_Periodo ac) ini fim ->
  nota_media (num := num) db ini fim (ac_ColaboradorId ac) <> None.
Proof.
  intros Hin Hp. unfold nota_media. rewrite AVG_nil_iff. intros H.
  assert (In (nota (num := num) ac)
             (non_null (map (fun a => Some (nota a))
                            (filter (fun a => ac_ColaboradorId a =? ac_ColaboradorId ac)
                                    (avaliacoes_no_periodo db ini fim))))) as Hn.
  { apply in_non_null, (in_map (fun a => Some (nota a))), filter_In.
    split; [|apply Z.eqb_refl]. now apply in_avaliacoes_no_periodo. }
  rewrite H in Hn. destruct Hn.
Qed.

Lemma resumo_select_nulos (limiar : num) k (g : list (Juncao (num := num))) :
  PiorNota (resumo_select limiar (k, g)) = None
  <-> NotaMedia (resumo_select limiar (k, g)) = None.
Proof.
  destruct (resumo_select_fields limiar k g) as (_ & _ & _ & _ & F5 & F6 & _).
  rewrite F5, F6, MIN_None, AVG_nil_iff. tauto.
Qed.

(** X22: a contract for which [SQL_DETALHES] returns a row is never without
    a score in [SQL_RESUMO]: in each of its rows there the worst score and
    the mean are present, in any arithmetic; the status of such a contract
    is not the one for contracts without evaluation. *)
Theorem detalhes_implica_nota (db : Banco) (ini fim : date) (limiar : num)
        (cid : Z) (r : ResumoRow num) :
  In r (SQL_RESUMO db ini fim limiar) -> ContratoId r = cid ->
  SQL_DETALHES (num := num) db cid ini fim <> [] ->
  PiorNota r <> None /\ NotaMedia r <> None /\ fst (classifica limiar r) <> 3.
Proof.
  intros Hr Hid Hdet.
  assert (PiorNota r <> None) as HP.
  { destruct (SQL_DETALHES (num := num) db cid ini fim) as [|x xs] eqn:Ed; [congruence|].
    assert (In x (SQL_DETALHES db cid ini fim)) as Hx by (rewrite Ed; now left).
    unfold SQL_DETALHES in Hx. apply in_map_iff in Hx as ([[pec ac] col] & _ & Hj).
    apply in_detalhes_rows, in_detalhes_from in Hj
      as (Hpec & Hac & _ & E1 & Hper & _ & E2 & _ & E3).
    apply in_SQL_RESUMO in Hr as (k & g & Hg & ->).
    destruct (resumo_select_fields limiar k g) as (F1 & _ & _ & _ & F5 & _).
    rewrite F1 in Hid. rewrite F5, MIN_None.
    pose proof Hg as Hk. apply in_GROUP_BY in Hk as ((j & Hj & Hk) & _).
    apply GROUP_BY_rows in Hg as (_ & Hg).
    pose proof (in_resumo_from db ini fim j Hj) as (Hc & He & _ & E4 & E5 & _).
    destruct (resumo_from_complete (num := num) db ini fim (j_c j) (j_e j) pec)
      as (n & Hn); try assumption.
    { rewrite E2, <- Hid, <- Hk. reflexivity. }
    assert (In (j_c j, j_e j, pec, n) g) as Hin.
    { apply Hg. split; [assumption|]. rewrite <- Hk. reflexivity. }
    pose proof (in_resumo_from db ini fim _ Hn) as (_ & _ & _ & _ & _ & _ & _ & En).
    cbn [j_pec fst snd] in En. rewrite <- E1 in En.
    destruct (j_NotaMedia (j_c j, j_e j, pec, n)) as [v|] eqn:Ev.
    - intros Hnil.
      assert (In v (non_null (map j_NotaMedia g))) as Hv.
      { apply in_non_null. rewrite <- Ev. now apply in_map. }
      rewrite Hnil in Hv. destruct Hv.
    - symmetry in En. now apply nota_media_Some in En. }
  split; [exact HP|]. split.
  - intros HN. apply HP. apply in_SQL_RESUMO in Hr as (k & g & _ & ->).
    now apply resumo_select_nulos.
  - intros H3. apply HP. now apply classifica_sem_nota in H3.
Qed.
End ResumoDetalhes.

Lemma detalhes_implica_nota_witness :
  exists r : ResumoRow Q,
    In r (SQL_RESUMO db_equipe fev_ini fev_fim 3.0%Q)
    /\ SQL_DETALHES (num := Q) db_equipe 1 fev_ini fev_fim <> []
    /\ PiorNota r <> None.
Proof.
  eexists. split; [left; reflexivity|]. split; [discriminate|].
  refine (proj1 (detalhes_implica_nota db_equipe fev_ini fev_fim 3.0%Q 1 _ _ _ _)).
  - left. reflexivity.
  - reflexivity.
  - discriminate.
Defined.
